(** * dbt-athena: the Athena adapter (dbt/adapters/athena/impl.py)

    A shallow embedding of [AthenaAdapter]: storage-location policy,
    Glue table retrieval, relation listing, catalog assembly with its SQL
    fallback, and the S3 clean-up operations.

    Python exceptions are values of [exn]; every effectful method is a
    function [World -> Result A * World], where the [World] records the
    remote calls issued so far, the content of the object store and the
    position in the stream of identifiers [uuid4] draws from. *)

From Stdlib Require Import String Ascii List Bool ZArith Arith Lia.
Import ListNotations.
Local Open Scope string_scope.
Local Open Scope list_scope.

(** ** Python values and exceptions *)

(** The [response["Error"]] part of a botocore [ClientError]; the source
    reads ["Code"] by index and ["Message"] with [.get]. *)
Record ErrorInfo := {
  Code : string;
  Message : option string
}.

Inductive exn :=
| ClientError (e : ErrorInfo)
| RuntimeException (msg : string)
| ValueError (msg : string)
| UnboundLocalError (var : string)
| KeyError (key : string)
| TypeError (msg : string)
| OtherError (msg : string).

Inductive Result (A : Type) :=
| Ok (a : A)
| Raise (e : exn).
Arguments Ok {A} a.
Arguments Raise {A} e.

(** ** The world outside the adapter *)

(** [dbt.contracts.relation.RelationType]. *)
Inductive RelationType := Table | View | CTE | MaterializedView | External.

(** A column entry of a Glue table: ["Name"] and ["Type"] are read by
    index, ["Comment"] with [.get]. *)
Record GlueColumn := {
  col_Name : string;
  col_Type : string;
  col_Comment : option string
}.

(** [table["StorageDescriptor"]]: ["Columns"] and ["Compressed"] are only
    read by index; ["Location"] is read with [.get] in the catalog and by
    index in the clean-up methods, where its absence is a [KeyError]. *)
Record StorageDescriptor := {
  Columns : list GlueColumn;
  Location : option string;
  Compressed : bool
}.

(** One entry of a [get_tables] page (also [get_table]'s ["Table"]).
    datetimes are carried as the text [str] prints for them. *)
Record GlueTable := {
  Name : string;
  TableType : string;
  Descriptor : StorageDescriptor;
  PartitionKeys : list GlueColumn;
  Description : option string;
  Owner : option string;
  CreateTime : option string;
  UpdateTime : option string;
  CreatedBy : string
}.

Record GluePartition := {
  Values : list string;
  part_Descriptor : StorageDescriptor
}.

(** The keyword arguments of [paginator.paginate]. *)
Record QueryParams := {
  DatabaseName : string;
  MaxResults : Z;
  CatalogId : option string
}.

(** Modelled from the spec: the Relation of the data model (the class
    AthenaRelation is declared in relation.py): database, schema,
    identifier, a per-part quoting policy, a type and the ordered column
    descriptors. *)
Record QuotePolicy := {
  quote_database : bool;
  quote_schema : bool;
  quote_identifier : bool
}.

Record AthenaRelation := {
  database : string;
  schema : string;
  identifier : string;
  quote_policy : QuotePolicy;
  type : option RelationType;
  column_information : list GlueColumn
}.

(** A remote call, as it appears in the log of the world. *)
Inductive Call :=
| GlueGetTables (params : QueryParams) (page : nat)
| GlueGetPartitions (db table expression : string)
| GlueGetTable (db name : string)
| S3Delete (bucket prefix : string)
| SqlListSchemas (db : string)
| SqlListRelations (rel : AthenaRelation)
| SqlExecuteMacro (macro : string) (db : string) (schemas : list string).

Record World := {
  calls : list Call;
  s3_objects : list (string * string);
  uuid_stream : nat -> string;
  uuid_drawn : nat
}.

Definition log (c : Call) (w : World) : World :=
  {| calls := calls w ++ [c];
     s3_objects := s3_objects w;
     uuid_stream := uuid_stream w;
     uuid_drawn := uuid_drawn w |}.

(** ** The exception and state monad of the methods *)

Definition M (A : Type) : Type := World -> Result A * World.

Definition ret {A} (a : A) : M A := fun w => (Ok a, w).

Definition raise {A} (e : exn) : M A := fun w => (Raise e, w).

Definition bind {A B} (m : M A) (k : A -> M B) : M B :=
  fun w =>
    match m w with
    | (Ok a, w') => k a w'
    | (Raise e, w') => (Raise e, w')
    end.

Declare Scope py_scope.
Delimit Scope py_scope with py.
Notation "x <- m ;; k" := (bind m (fun x => k))
  (at level 100, m at next level, right associativity) : py_scope.
Notation "m ;;; k" := (bind m (fun _ => k))
  (at level 100, right associativity) : py_scope.
Local Open Scope py_scope.

(** [try: body / except ClientError as e: handler e]; any other
    exception leaves the statement unhandled. *)
Definition try_except_ClientError {A} (body : M A) (handler : ErrorInfo -> M A) : M A :=
  fun w =>
    match body w with
    | (Raise (ClientError e), w') => handler e w'
    | r => r
    end.

(** [for x in xs: body], the loop threading the local variables [acc]
    its body assigns. *)
Fixpoint for_each {A L} (xs : list A) (body : A -> L -> M L) (acc : L) : M L :=
  match xs with
  | [] => ret acc
  | x :: rest => acc' <- body x acc ;; for_each rest body acc'
  end.

(** A remote call whose outcome the service decides: it is logged, then
    it returns or raises. *)
Definition remote {A} (c : Call) (outcome : Result A) : M A :=
  fun w => (outcome, log c w).

(** [uuid4()] rendered by [str]: the next identifier of the stream. *)
Definition uuid4 : M string :=
  fun w =>
    (Ok (uuid_stream w (uuid_drawn w)),
     {| calls := calls w;
        s3_objects := s3_objects w;
        uuid_stream := uuid_stream w;
        uuid_drawn := S (uuid_drawn w) |}).

(** The objects that [s3_bucket.objects.filter(Prefix=prefix).delete()]
    is about: those of the bucket whose key starts with the prefix. *)
Definition under (bucket pfx : string) (o : string * string) : bool :=
  String.eqb (fst o) bucket && String.prefix pfx (snd o).

(** How the object store answers such a delete: it is carried out, or
    the call raises, some of the objects under the prefix (those that
    [removed] picks) having gone before it does. *)
Inductive S3Outcome :=
| Deleted
| Failed (e : exn) (removed : string * string -> bool).

(** The object-storage delete calls of a log. *)
Definition delete_calls (cs : list Call) : list (string * string) :=
  flat_map (fun c => match c with S3Delete b p => [(b, p)] | _ => [] end) cs.

(** ** The adapter and its collaborators *)

Record Credentials := {
  s3_staging_dir : string;
  s3_data_dir : option string;
  s3_data_naming : string
}.

Record GlueClient := {
  get_tables_pages : QueryParams -> list (Result (list GlueTable));
  get_partitions : string -> string -> string -> Result (list GluePartition);
  get_table : string -> string -> Result GlueTable
}.

(** [agate.Table]: column names and rows of cells. *)
Inductive PyVal :=
| VStr (s : string)
| VInt (n : Z)
| VBool (b : bool)
| VRelType (t : RelationType)
| VColumns (cs : list GlueColumn).

Record AgateTable := {
  column_names : list string;
  table_rows : list (list PyVal)
}.

Record InformationSchema := {
  info_database : string
}.

(** [manifest.get_used_schemas()]: (database, schema) pairs. *)
Record Manifest := {
  get_used_schemas : list (string * string)
}.

(** [self]: the credentials of the thread's connection, the Glue client
    of its session, and the inherited SQL paths. With them come the
    parts of the runtime the methods call and whose code is not the
    adapter's, taken as they are: what the S3 resource of the session
    answers to a delete, Python's [str.lower], and the construction of
    an [agate.Table] from rows, column names and the names of the
    text-only columns (with the type tester built for them), which may
    raise. *)
Record AthenaAdapter := {
  creds : Credentials;
  glue_client : GlueClient;
  list_schemas : string -> Result (list string);
  super_list_relations_without_caching : AthenaRelation -> Result (list AthenaRelation);
  execute_macro : string -> InformationSchema -> list string -> Manifest -> Result AgateTable;
  _catalog_filter_table : AgateTable -> Manifest -> AgateTable;
  s3_delete_outcome : string -> string -> S3Outcome;
  str_lower : string -> string;
  agate_Table : list (list PyVal) -> list string -> option (list string)
                -> Result AgateTable
}.

(** [s3_bucket.objects.filter(Prefix=prefix).delete()]: the call is
    logged; carried out, it removes every object of the bucket whose key
    starts with the prefix; failing, it raises. *)
Definition s3_delete (self : AthenaAdapter) (bucket pfx : string) : M unit :=
  fun w =>
    match s3_delete_outcome self bucket pfx with
    | Deleted =>
        (Ok tt,
         {| calls := calls w ++ [S3Delete bucket pfx];
            s3_objects := filter (fun o => negb (under bucket pfx o)) (s3_objects w);
            uuid_stream := uuid_stream w;
            uuid_drawn := uuid_drawn w |})
    | Failed e removed =>
        (Raise e,
         {| calls := calls w ++ [S3Delete bucket pfx];
            s3_objects := filter (fun o => negb (under bucket pfx o && removed o))
                            (s3_objects w);
            uuid_stream := uuid_stream w;
            uuid_drawn := uuid_drawn w |})
    end.

(** ** StorageLocationResolver *)

Definition s3_table_prefix (self : AthenaAdapter) : M string :=
  match s3_data_dir (creds self) with
  | Some d => ret d
  | None => ret (s3_staging_dir (creds self) ++ "tables/")%string
  end.

Definition s3_uuid_table_location (self : AthenaAdapter) : M string :=
  root <- s3_table_prefix self ;;
  u <- uuid4 ;;
  ret (root ++ u ++ "/")%string.

Definition s3_schema_table_location (self : AthenaAdapter)
    (schema_name table_name : string) : M string :=
  root <- s3_table_prefix self ;;
  ret (root ++ schema_name ++ "/" ++ table_name ++ "/")%string.

Definition s3_table_location (self : AthenaAdapter)
    (schema_name table_name : string) : M string :=
  if String.eqb (s3_data_naming (creds self)) "schema_table" then
    s3_schema_table_location self schema_name table_name
  else if String.eqb (s3_data_naming (creds self)) "uuid" then
    s3_uuid_table_location self
  else
    raise (ValueError ("Unknown value for s3_data_naming: "
                       ++ s3_data_naming (creds self))%string).

Definition has_s3_data_dir (self : AthenaAdapter) : M bool :=
  ret (match s3_data_dir (creds self) with Some _ => true | None => false end).

(** ** CatalogServiceClient *)

Definition query_params (catalog_id name : string) : QueryParams :=
  {| DatabaseName := name;
     MaxResults := 50;
     CatalogId := if String.eqb catalog_id "awsdatacatalog" then None
                  else Some catalog_id |}.

(** [for page in page_iterator: for table in page["TableList"]: yield table],
    seen from the loop that consumes the generator: page [i] is fetched,
    its tables are handed to the consumer's body one by one, then the
    next page is fetched. *)
Fixpoint for_pages {L} (params : QueryParams) (i : nat)
    (pages : list (Result (list GlueTable)))
    (body : GlueTable -> L -> M L) (acc : L) : M L :=
  match pages with
  | [] => ret acc
  | page :: rest =>
      tables <- remote (GlueGetTables params i) page ;;
      acc' <- for_each tables body acc ;;
      for_pages params (S i) rest body acc'
  end.

(** [for table in self._retrieve_glue_tables(catalog_id, name): body]. *)
Definition _retrieve_glue_tables {L} (self : AthenaAdapter)
    (catalog_id name : string) (body : GlueTable -> L -> M L) (acc : L) : M L :=
  if String.eqb catalog_id "" then
    raise (RuntimeException "Glue GetTables: Need catalog id")
  else if String.eqb name "" then
    raise (RuntimeException "Glue GetTables: Need database name")
  else
    let params := query_params catalog_id name in
    for_pages params 0 (get_tables_pages (glue_client self) params) body acc.

(** ** RelationTranslator *)

Definition _get_rel_type_from_glue_response (table : GlueTable) : M RelationType :=
  if String.eqb (TableType table) "VIRTUAL_VIEW" then ret View
  else if String.eqb (TableType table) "EXTERNAL_TABLE" then ret Table
  else raise (RuntimeException
                ("Unknown table type " ++ TableType table
                 ++ " for " ++ Name table)%string).

Definition default_quote_policy : QuotePolicy :=
  {| quote_database := true; quote_schema := true; quote_identifier := true |}.

(** The body of the loop of [list_relations_without_caching]. *)
Definition relation_of_table (schema_relation : AthenaRelation)
    (table : GlueTable) (relations : list AthenaRelation) : M (list AthenaRelation) :=
  rel_type <- _get_rel_type_from_glue_response table ;;
  let relation :=
    {| database := database schema_relation;
       identifier := Name table;
       schema := schema schema_relation;
       quote_policy := default_quote_policy;
       type := Some rel_type;
       column_information := Columns (Descriptor table) ++ PartitionKeys table |} in
  ret (relations ++ [relation]).

Definition list_relations_without_caching (self : AthenaAdapter)
    (schema_relation : AthenaRelation) : M (list AthenaRelation) :=
  try_except_ClientError
    (_retrieve_glue_tables self (database schema_relation) (schema schema_relation)
       (relation_of_table schema_relation) [])
    (fun e =>
       remote (SqlListRelations schema_relation)
              (super_list_relations_without_caching self schema_relation)).

(** [get_columns_in_relation]. [Column.create], [self.get_relation] and
    the inherited [get_columns_in_relation] belong to the base adapter and
    are taken as they come; a relation object is always true, a list is
    true when it is not empty. *)
Definition get_columns_in_relation {Column : Type}
    (Column_create : string -> string -> Column)
    (get_relation : string -> string -> string -> M (option AthenaRelation))
    (super_get_columns_in_relation : AthenaRelation -> M (list Column))
    (relation : AthenaRelation) : M (list Column) :=
  cached_relation <- get_relation (database relation) (schema relation)
                       (identifier relation) ;;
  match cached_relation with
  | Some cached =>
      match column_information cached with
      | _ :: _ =>
          ret (fold_left
                 (fun columns col_dict =>
                    columns ++ [Column_create (col_Name col_dict) (col_Type col_dict)])
                 (column_information cached) [])
      | [] => super_get_columns_in_relation relation
      end
  | None => super_get_columns_in_relation relation
  end.

(** ** CatalogAssembler *)

(** A Python dict: insertion-ordered keys, assignment to a present key
    keeps its position. *)
Definition Dict := list (string * PyVal).

Fixpoint dict_set (d : Dict) (k : string) (v : PyVal) : Dict :=
  match d with
  | [] => [(k, v)]
  | (k', v') :: rest =>
      if String.eqb k' k then (k', v) :: rest
      else (k', v') :: dict_set rest k v
  end.

Definition dict_update (d items : Dict) : Dict :=
  fold_left (fun acc kv => dict_set acc (fst kv) (snd kv)) items d.

Definition dict_literal (items : Dict) : Dict := dict_update [] items.

Fixpoint dict_get (d : Dict) (k : string) : option PyVal :=
  match d with
  | [] => None
  | (k', v) :: rest => if String.eqb k' k then Some v else dict_get rest k
  end.

Definition keys (d : Dict) : list string := map fst d.
Definition values (d : Dict) : list PyVal := map snd d.

Definition get_default (o : option string) (default : string) : string :=
  match o with Some s => s | None => default end.

Definition _create_stats_dict (label : string) (value : PyVal)
    (description : string) (include : bool) : Dict :=
  dict_literal
    [ ("stats:" ++ label ++ ":label", VStr label);
      ("stats:" ++ label ++ ":value", value);
      ("stats:" ++ label ++ ":description", VStr description);
      ("stats:" ++ label ++ ":include", VBool include) ]%string.

(** [enumerate(xs)]. *)
Fixpoint enumerate_from {A} (i : nat) (xs : list A) : list (nat * A) :=
  match xs with
  | [] => []
  | x :: rest => (i, x) :: enumerate_from (S i) rest
  end.

Definition enumerate {A} (xs : list A) : list (nat * A) := enumerate_from 0 xs.

(** The table-wide part of a catalog row. *)
Definition table_row_of (target_database schema : string) (table : GlueTable)
    (rel_type : RelationType) : Dict :=
  let table_row :=
    dict_literal
      [ ("table_database", VStr target_database);
        ("table_schema", VStr schema);
        ("table_name", VStr (Name table));
        ("table_type", VRelType rel_type) ] in
  let descriptor := Descriptor table in
  let table_row := dict_update table_row
    (_create_stats_dict "description"
       (VStr (get_default (Description table) "")) "Table description" true) in
  let table_row := dict_update table_row
    (_create_stats_dict "owner" (VStr (get_default (Owner table) "")) "Table owner" true) in
  let table_row := dict_update table_row
    (_create_stats_dict "created_at"
       (VStr (get_default (CreateTime table) "")) "Table creation time" true) in
  let table_row := dict_update table_row
    (_create_stats_dict "updated_at"
       (VStr (get_default (UpdateTime table) "")) "Table update time" true) in
  let table_row := dict_update table_row
    (_create_stats_dict "created_by" (VStr (CreatedBy table)) "Who create it" true) in
  let table_row := dict_update table_row
    (_create_stats_dict "partitions" (VColumns (PartitionKeys table)) "Partition keys" true) in
  let table_row := dict_update table_row
    (_create_stats_dict "location"
       (VStr (get_default (Location descriptor) "")) "Table path" true) in
  dict_update table_row
    (_create_stats_dict "compressed" (VBool (Compressed descriptor))
       "Table has compressed or not" true).

(** One catalog row: the copy of [table_row] updated with the column. *)
Definition column_row (table_row : Dict) (idx : nat) (col : GlueColumn) : Dict :=
  dict_update table_row
    (dict_literal
       [ ("column_name", VStr (col_Name col));
         ("column_type", VStr (col_Type col));
         ("column_index", VInt (Z.of_nat idx));
         ("column_comment", VStr (get_default (col_Comment col) "")) ]).

(** The body of the loop over the tables in [_get_one_catalog]; its own
    loop over the enumerated columns appends one row per column. *)
Definition catalog_rows_of_table (target_database schema : string)
    (table : GlueTable) (rows : list Dict) : M (list Dict) :=
  rel_type <- _get_rel_type_from_glue_response table ;;
  let table_row := table_row_of target_database schema table rel_type in
  ret (fold_left
         (fun rows ic => rows ++ [column_row table_row (fst ic) (snd ic)])
         (enumerate (Columns (Descriptor table) ++ PartitionKeys table))
         rows).

(** [dbt.clients.agate_helper.table_from_rows(rows, column_names,
    text_only_columns=None)]: [column_names] has no default, so a call
    that does not pass it raises; otherwise the table is the one agate
    builds. *)
Definition table_from_rows (self : AthenaAdapter) (rows : list (list PyVal))
    (column_names : option (list string)) (text_only_columns : option (list string))
    : M AgateTable :=
  match column_names with
  | None =>
      raise (TypeError
               "table_from_rows() missing 1 required positional argument: 'column_names'")
  | Some names => fun w => (agate_Table self rows names text_only_columns, w)
  end.

Definition GET_CATALOG_MACRO_NAME : string := "get_catalog".

(** The statements of the [try] block of [_get_one_catalog]. *)
Definition glue_catalog (self : AthenaAdapter) (target_database : string)
    (target_schemas : list string) (manifest : Manifest) : M AgateTable :=
  rows <- for_each target_schemas
            (fun schema rows =>
               _retrieve_glue_tables self target_database schema
                 (catalog_rows_of_table target_database schema) rows)
            [] ;;
  match rows with
  | [] => table_from_rows self [] None None
  | first :: _ =>
      table <- table_from_rows self (map values rows) (Some (keys first))
                 (Some ["table_database"; "table_schema"; "table_name"]) ;;
      ret (_catalog_filter_table self table manifest)
  end.

(** The statements of its [except ClientError] block. *)
Definition sql_catalog (self : AthenaAdapter) (information_schema : InformationSchema)
    (schemas : list string) (manifest : Manifest) : M AgateTable :=
  table <- remote (SqlExecuteMacro GET_CATALOG_MACRO_NAME
                     (info_database information_schema) schemas)
                  (execute_macro self GET_CATALOG_MACRO_NAME
                     information_schema schemas manifest) ;;
  ret (_catalog_filter_table self table manifest).

Definition target_schemas_of (self : AthenaAdapter) (manifest : Manifest)
    (schema_list : list string) : list string :=
  let used_schemas :=
    map (fun ds => str_lower self (snd ds)) (get_used_schemas manifest) in
  filter (fun x => existsb (String.eqb (str_lower self x)) used_schemas) schema_list.

Definition _get_one_catalog (self : AthenaAdapter)
    (information_schema : InformationSchema) (schemas : list string)
    (manifest : Manifest) : M AgateTable :=
  let target_database := info_database information_schema in
  schema_list <- remote (SqlListSchemas target_database)
                        (list_schemas self target_database) ;;
  let target_schemas := target_schemas_of self manifest schema_list in
  try_except_ClientError
    (glue_catalog self target_database target_schemas manifest)
    (fun e => sql_catalog self information_schema schemas manifest).

(** ** StorageCleaner *)

(** [s.split(c, 1)] without the separator: the longest prefix whose
    characters all satisfy [keep], and what follows it. *)
Fixpoint span (keep : ascii -> bool) (s : string) : string * string :=
  match s with
  | EmptyString => (EmptyString, EmptyString)
  | String c rest =>
      if keep c then let (a, b) := span keep rest in (String c a, b)
      else (EmptyString, s)
  end.

Fixpoint strip_prefix (p s : string) : option string :=
  match p, s with
  | EmptyString, _ => Some s
  | String a p', String b s' => if Ascii.eqb a b then strip_prefix p' s' else None
  | String _ _, EmptyString => None
  end.

Definition slash : ascii := "/"%char.
Definition newline : ascii := ascii_of_nat 10.

(** [p.match(location)] for the pattern compiled in both clean-up
    methods, giving groups 1 and 2. The pattern is the literal s3://, a
    group of characters other than the slash (as many as there are), a
    slash, and a group of characters other than the newline (as many as
    there are). The match is anchored at the start only, so the first
    group stops at the first slash, which must be there, and the second
    stops before the first newline. *)
Definition s3_location_match (location : string) : option (string * string) :=
  match strip_prefix "s3://" location with
  | None => None
  | Some rest =>
      let (bucket_name, after) := span (fun c => negb (Ascii.eqb c slash)) rest in
      match after with
      | String _ tail =>
          Some (bucket_name, fst (span (fun c => negb (Ascii.eqb c newline)) tail))
      | EmptyString => None
      end
  end.

(** [descriptor["Location"]]. *)
Definition getitem_Location (descriptor : StorageDescriptor) : M string :=
  match Location descriptor with
  | Some l => ret l
  | None => raise (KeyError "Location")
  end.

(** What both clean-up methods do with a location. *)
Definition delete_location (self : AthenaAdapter) (location : string) : M unit :=
  match s3_location_match location with
  | Some (bucket_name, pfx) => s3_delete self bucket_name pfx
  | None => ret tt
  end.

Definition clean_up_partitions (self : AthenaAdapter)
    (database_name table_name where_condition : string) : M unit :=
  partitions <- remote (GlueGetPartitions database_name table_name where_condition)
                       (get_partitions (glue_client self)
                          database_name table_name where_condition) ;;
  for_each partitions
    (fun partition _ =>
       location <- getitem_Location (part_Descriptor partition) ;;
       delete_location self location)
    tt.

(** How the [try] statement of [clean_up_table] is left: on to the next
    statement with the local [table] bound or not, or by [return]. *)
Inductive Flow :=
| Next (table : option GlueTable)
| Return.

Definition clean_up_table (self : AthenaAdapter)
    (database_name table_name : string) : M unit :=
  flow <- try_except_ClientError
            (table <- remote (GlueGetTable database_name table_name)
                             (get_table (glue_client self) database_name table_name) ;;
             ret (Next (Some table)))
            (fun e =>
               if String.eqb (Code e) "EntityNotFoundException" then ret Return
               else ret (Next None)) ;;
  match flow with
  | Return => ret tt
  | Next None => raise (UnboundLocalError "table")
  | Next (Some table) =>
      location <- getitem_Location (Descriptor table) ;;
      delete_location self location
  end.

(** * Vocabulary of the properties *)

(** The rows one table contributes to the catalog, in the order of
    its columns. *)
Definition rows_of_table (target_database schema_name : string) (table : GlueTable)
    (rel_type : RelationType) : list Dict :=
  map (fun ic => column_row (table_row_of target_database schema_name table rel_type)
                   (fst ic) (snd ic))
      (enumerate (Columns (Descriptor table) ++ PartitionKeys table)).

(** The table storage root of a configuration. *)
Definition table_root (c : Credentials) : string :=
  match s3_data_dir c with
  | Some d => d
  | None => (s3_staging_dir c ++ "tables/")%string
  end.

Definition is_ClientError (e : exn) : bool :=
  match e with ClientError _ => true | _ => false end.

(** A loop body that returns on [x] whatever the locals and the world,
    and one that raises [e] on [x]. *)
Definition completes {A L} (body : A -> L -> M L) (x : A) : Prop :=
  forall acc w, exists acc' w', body x acc w = (Ok acc', w').

Definition fails_with {A L} (body : A -> L -> M L) (e : exn) (x : A) : Prop :=
  forall acc w, exists w', body x acc w = (Raise e, w').

(** The calls of a log that [select] picks. *)
Definition issued (select : Call -> bool) (w : World) : list Call :=
  filter select (calls w).

(** [m] issues no call that [select] picks. *)
Definition silent {A} (select : Call -> bool) (m : M A) : Prop :=
  forall w r w', m w = (r, w') -> issued select w' = issued select w.

Definition known_kind (table : GlueTable) : bool :=
  String.eqb (TableType table) "VIRTUAL_VIEW"
  || String.eqb (TableType table) "EXTERNAL_TABLE".

(** The error of the classifier on a table it cannot classify. *)
Definition unknown_table_type (table : GlueTable) : exn :=
  RuntimeException ("Unknown table type " ++ TableType table
                    ++ " for " ++ Name table)%string.

(** The error of the retrieval on a missing identifier. *)
Definition missing_identifier (catalog_id : string) : exn :=
  if String.eqb catalog_id "" then RuntimeException "Glue GetTables: Need catalog id"
  else RuntimeException "Glue GetTables: Need database name".

(** The calls of the two SQL fallback paths. *)
Definition sql_fallback (c : Call) : bool :=
  match c with
  | SqlListRelations _ | SqlExecuteMacro _ _ _ => true
  | _ => false
  end.

(** Every page is served and holds tables of a known kind only. *)
Definition all_served (pages : list (Result (list GlueTable))) : Prop :=
  exists served,
    pages = map Ok served /\
    Forall (Forall (fun t => known_kind t = true)) served.

(** The loop over the pages gets to [table]: the pages before its page
    are served, and the tables before it are of a known kind. *)
Definition reaches (pages : list (Result (list GlueTable))) (table : GlueTable) : Prop :=
  exists served before after later,
    pages = map Ok served ++ Ok (before ++ table :: after) :: later /\
    Forall (Forall (fun t => known_kind t = true)) served /\
    Forall (fun t => known_kind t = true) before.

(** The loop over the pages gets to a page the service refuses with [e]. *)
Definition denied_with (pages : list (Result (list GlueTable))) (e : exn) : Prop :=
  exists served later,
    pages = map Ok served ++ Raise e :: later /\
    Forall (Forall (fun t => known_kind t = true)) served.

(** A loop body that classifies the table first and then only computes. *)
Definition classifying {L} (body : GlueTable -> L -> M L) : Prop :=
  exists f, forall table acc,
    body table acc = (rel_type <- _get_rel_type_from_glue_response table ;;
                      ret (f table rel_type acc)).

(** The loop over the target schemas in [_get_one_catalog]. *)
Definition schema_rows (self : AthenaAdapter) (target_database : string)
    (schema_name : string) (rows : list Dict) : M (list Dict) :=
  _retrieve_glue_tables self target_database schema_name
    (catalog_rows_of_table target_database schema_name) rows.

Definition pages_of (self : AthenaAdapter) (catalog_id name : string) :=
  get_tables_pages (glue_client self) (query_params catalog_id name).

(** A target schema whose retrieval goes through. *)
Definition retrievable (self : AthenaAdapter) (target_database schema_name : string) : Prop :=
  schema_name <> "" /\ all_served (pages_of self target_database schema_name).

(** The SQL-execution path invoked directly: the result of the
    get-catalog macro for the request, passed through the post-filter. *)
Definition sql_path_result (self : AthenaAdapter) (information_schema : InformationSchema)
    (schemas : list string) (manifest : Manifest) : Result AgateTable :=
  match execute_macro self GET_CATALOG_MACRO_NAME information_schema schemas manifest with
  | Ok table => Ok (_catalog_filter_table self table manifest)
  | Raise e => Raise e
  end.

(** The world after [s3_bucket.objects.filter(Prefix=pfx).delete()]. *)
Definition purged (w : World) (target : string * string) : World :=
  {| calls := calls w ++ [S3Delete (fst target) (snd target)];
     s3_objects := filter (fun o => negb (under (fst target) (snd target) o)) (s3_objects w);
     uuid_stream := uuid_stream w;
     uuid_drawn := uuid_drawn w |}.

(** The bucket and prefix of the partitions whose location matches. *)
Definition parsed (location : option string) : list (string * string) :=
  match location with
  | Some l => match s3_location_match l with Some target => [target] | None => [] end
  | None => []
  end.

Definition parsed_locations (partitions : list GluePartition) : list (string * string) :=
  flat_map (fun p => parsed (Location (part_Descriptor p))) partitions.

(** ** Vocabulary of the further properties *)

(** The type the classifier gives to a table of a known kind. *)
Definition rel_type_of (table : GlueTable) : RelationType :=
  if String.eqb (TableType table) "VIRTUAL_VIEW" then View else Table.

(** The relation [list_relations_without_caching] builds for a table. *)
Definition glue_relation (schema_relation : AthenaRelation) (table : GlueTable)
    : AthenaRelation :=
  {| database := database schema_relation;
     identifier := Name table;
     schema := schema schema_relation;
     quote_policy := default_quote_policy;
     type := Some (rel_type_of table);
     column_information := Columns (Descriptor table) ++ PartitionKeys table |}.

(** The world after the pages [i], [i+1], ... ([n] of them) were fetched. *)
Definition fetched (params : QueryParams) (i n : nat) (w : World) : World :=
  {| calls := calls w ++ map (GlueGetTables params) (seq i n);
     s3_objects := s3_objects w;
     uuid_stream := uuid_stream w;
     uuid_drawn := uuid_drawn w |}.

(** The tables of the pages the service served. *)
Definition served_tables (pages : list (Result (list GlueTable))) : list GlueTable :=
  flat_map (fun page => match page with Ok tables => tables | Raise _ => [] end) pages.

(** The rows of the catalog for the tables of one schema, and for the
    target schemas in turn. *)
Definition rows_of_schema (self : AthenaAdapter) (target_database schema_name : string)
    : list Dict :=
  flat_map (fun table =>
              rows_of_table target_database schema_name table (rel_type_of table))
           (served_tables (pages_of self target_database schema_name)).

Definition rows_of_schemas (self : AthenaAdapter) (target_database : string)
    (target_schemas : list string) : list Dict :=
  flat_map (rows_of_schema self target_database) target_schemas.

(** The keys of every catalog row, in their order. *)
Definition catalog_columns : list string :=
  [ "table_database"; "table_schema"; "table_name"; "table_type";
    "stats:description:label"; "stats:description:value";
    "stats:description:description"; "stats:description:include";
    "stats:owner:label"; "stats:owner:value";
    "stats:owner:description"; "stats:owner:include";
    "stats:created_at:label"; "stats:created_at:value";
    "stats:created_at:description"; "stats:created_at:include";
    "stats:updated_at:label"; "stats:updated_at:value";
    "stats:updated_at:description"; "stats:updated_at:include";
    "stats:created_by:label"; "stats:created_by:value";
    "stats:created_by:description"; "stats:created_by:include";
    "stats:partitions:label"; "stats:partitions:value";
    "stats:partitions:description"; "stats:partitions:include";
    "stats:location:label"; "stats:location:value";
    "stats:location:description"; "stats:location:include";
    "stats:compressed:label"; "stats:compressed:value";
    "stats:compressed:description"; "stats:compressed:include";
    "column_name"; "column_type"; "column_index"; "column_comment" ].

Definition stats_labels : list string :=
  [ "description"; "owner"; "created_at"; "updated_at"; "created_by";
    "partitions"; "location"; "compressed" ].

(** A Glue call for a schema that is not among [allowed]. *)
Definition fetches_outside (allowed : list string) (c : Call) : bool :=
  match c with
  | GlueGetTables params _ => negb (existsb (String.eqb (DatabaseName params)) allowed)
  | _ => false
  end.

(** The character [c] does not occur in [s]. *)
Fixpoint free_of (c : ascii) (s : string) : bool :=
  match s with
  | EmptyString => true
  | String x rest => negb (Ascii.eqb x c) && free_of c rest
  end.

(** What the deletes for [targets] leave of an object. *)
Definition spared (targets : list (string * string)) (o : string * string) : bool :=
  forallb (fun target => negb (under (fst target) (snd target) o)) targets.

(** The world after a delete that failed, the objects that [removed]
    picks under the prefix having gone. *)
Definition refused (w : World) (target : string * string)
    (removed : string * string -> bool) : World :=
  {| calls := calls w ++ [S3Delete (fst target) (snd target)];
     s3_objects := filter (fun o => negb (under (fst target) (snd target) o && removed o))
                     (s3_objects w);
     uuid_stream := uuid_stream w;
     uuid_drawn := uuid_drawn w |}.

(** The object store carries out the delete for [target]. *)
Definition carried_out (self : AthenaAdapter) (target : string * string) : Prop :=
  s3_delete_outcome self (fst target) (snd target) = Deleted.

(** ** An example service *)

(** The runtime of the examples. Their schema names are made of ASCII
    characters, on which [str.lower] turns the letters A to Z into a to
    z and keeps the rest; the stand-in for agate keeps the cells as they
    are; the object store refuses the empty bucket name, as the
    validation of the parameters of the call does, and carries out every
    other delete. *)
Definition ascii_lower_char (c : ascii) : ascii :=
  let n := nat_of_ascii c in
  if (65 <=? n)%nat && (n <=? 90)%nat then ascii_of_nat (n + 32) else c.

Fixpoint ascii_lower (s : string) : string :=
  match s with
  | EmptyString => EmptyString
  | String c rest => String (ascii_lower_char c) (ascii_lower rest)
  end.

Definition example_agate (rows : list (list PyVal)) (names : list string)
    (text_only_columns : option (list string)) : Result AgateTable :=
  Ok {| column_names := names; table_rows := rows |}.

Definition example_store (bucket pfx : string) : S3Outcome :=
  if String.eqb bucket "" then Failed (OtherError "ParamValidationError") (fun _ => false)
  else Deleted.

Definition no_such_table : ErrorInfo :=
  {| Code := "EntityNotFoundException"; Message := Some "Table t1 not found." |}.

Definition access_denied : ErrorInfo :=
  {| Code := "AccessDeniedException"; Message := None |}.

Definition column (name ty : string) : GlueColumn :=
  {| col_Name := name; col_Type := ty; col_Comment := None |}.

Definition example_table (name kind : string) : GlueTable :=
  {| Name := name;
     TableType := kind;
     Descriptor := {| Columns := [column "a" "int"; column "b" "string"];
                      Location := Some "s3://b/tables/s1/t1/";
                      Compressed := false |};
     PartitionKeys := [column "p" "date"];
     Description := None;
     Owner := None;
     CreateTime := None;
     UpdateTime := None;
     CreatedBy := "arn:aws:iam::1:user/dbt" |}.

Definition example_partition (value : string) (location : string) : GluePartition :=
  {| Values := [value];
     part_Descriptor := {| Columns := []; Location := Some location; Compressed := false |} |}.

Definition sql_table : AgateTable :=
  {| column_names := ["table_database"; "table_schema"; "table_name"];
     table_rows := [[VStr "awsdatacatalog"; VStr "s1"; VStr "from_sql"]] |}.

(** An adapter over a catalog service that serves one page of tables
    and then denies access, but for the schema s2, where it serves a
    view and a table of a kind the adapter does not know. *)
Definition example_adapter (naming : string) : AthenaAdapter :=
  {| creds := {| s3_staging_dir := "s3://b/";
                 s3_data_dir := None;
                 s3_data_naming := naming |};
     glue_client :=
       {| get_tables_pages := fun params =>
            if String.eqb (DatabaseName params) "s2" then
              [Ok [example_table "v1" "VIRTUAL_VIEW"; example_table "t2" "MANAGED_TABLE"]]
            else
              [Ok [example_table "t1" "EXTERNAL_TABLE"]; Raise (ClientError access_denied)];
          get_partitions := fun _ _ expression =>
            if String.eqb expression "dt = 'none'" then Ok []
            else Ok [example_partition "1" "s3://b/tables/s1/t1/dt=1/";
                     example_partition "2" "hdfs://b/tables/s1/t1/dt=2/"];
          get_table := fun _ name =>
            if String.eqb name "t1" then Ok (example_table "t1" "EXTERNAL_TABLE")
            else if String.eqb name "gone" then Raise (ClientError no_such_table)
            else Raise (ClientError access_denied) |};
     list_schemas := fun db =>
       if String.eqb db "lake" then Ok ["s2"]
       else if String.eqb db "offline" then Raise (ClientError access_denied)
       else Ok ["S1"; "unused"];
     super_list_relations_without_caching := fun _ => Ok [];
     execute_macro := fun _ _ _ _ => Ok sql_table;
     _catalog_filter_table := fun t _ => t;
     s3_delete_outcome := example_store;
     str_lower := ascii_lower;
     agate_Table := example_agate |}.

Definition example_world : World :=
  {| calls := [];
     s3_objects := [("b", "tables/s1/t1/dt=1/part-0"); ("b", "tables/s1/t1/dt=2/part-0");
                    ("other", "tables/s1/t1/dt=1/part-0")];
     uuid_stream := fun n => if Nat.even n then "6f1c" else "90ab";
     uuid_drawn := 0 |}.

Definition example_manifest : Manifest :=
  {| get_used_schemas := [("awsdatacatalog", "s1"); ("lake", "S2")] |}.

Definition example_relation (db schema_name : string) : AthenaRelation :=
  {| database := db;
     schema := schema_name;
     identifier := "";
     quote_policy := default_quote_policy;
     type := None;
     column_information := [] |}.

(** A second service: every schema holds t1 and v1 on a first page and
    t3 on a second one, but the schema named empty, which holds nothing,
    and the one named unreachable, whose second page cannot be fetched
    for a reason that is not a [ClientError]. *)
Definition bare_table (name : string) (location : option string) : GlueTable :=
  {| Name := name;
     TableType := "EXTERNAL_TABLE";
     Descriptor := {| Columns := []; Location := location; Compressed := false |};
     PartitionKeys := [];
     Description := None;
     Owner := None;
     CreateTime := None;
     UpdateTime := None;
     CreatedBy := "arn:aws:iam::1:user/dbt" |}.

Definition example_lake : AthenaAdapter :=
  {| creds := {| s3_staging_dir := "s3://b/";
                 s3_data_dir := Some "s3://lake/data/";
                 s3_data_naming := "schema_table" |};
     glue_client :=
       {| get_tables_pages := fun params =>
            if String.eqb (DatabaseName params) "unreachable" then
              [Ok [example_table "t1" "EXTERNAL_TABLE"];
               Raise (OtherError "EndpointConnectionError")]
            else if String.eqb (DatabaseName params) "empty" then [Ok []]
            else
              [Ok [example_table "t1" "EXTERNAL_TABLE"; example_table "v1" "VIRTUAL_VIEW"];
               Ok [example_table "t3" "EXTERNAL_TABLE"]];
          get_partitions := fun _ _ expression =>
            if String.eqb expression "broken" then Raise (ClientError no_such_table)
            else if String.eqb expression "root" then
              Ok [example_partition "0" "s3:///k";
                  example_partition "1" "s3://b/tables/s1/t1/dt=1/"]
            else Ok [example_partition "1" "s3://b/tables/s1/t1/dt=1/";
                     {| Values := ["2"];
                        part_Descriptor := {| Columns := []; Location := None;
                                              Compressed := false |} |};
                     example_partition "3" "s3://b/tables/s1/t1/dt=2/"];
          get_table := fun _ name =>
            if String.eqb name "nowhere" then Ok (bare_table name None)
            else if String.eqb name "local" then Ok (bare_table name (Some "file:///tmp/t"))
            else if String.eqb name "mine" then
              Ok (bare_table name (Some "s3://lake/data/s1/mine/"))
            else Ok (example_table name "EXTERNAL_TABLE") |};
     list_schemas := fun db =>
       if String.eqb db "void" then Ok ["empty"]
       else if String.eqb db "far" then Ok ["unreachable"]
       else Ok ["s1"; "unused"; "S2"];
     super_list_relations_without_caching := fun _ => Ok [];
     execute_macro := fun _ _ _ _ => Ok sql_table;
     _catalog_filter_table := fun t _ => t;
     s3_delete_outcome := example_store;
     str_lower := ascii_lower;
     agate_Table := example_agate |}.

Definition lake_world : World :=
  {| calls := [];
     s3_objects := [("lake", "data/s1/mine/part-0"); ("lake", "data/s1/yours/part-0");
                    ("b", "tables/s1/t1/dt=1/part-0"); ("b", "tables/s1/t1/dt=2/part-0")];
     uuid_stream := fun n => if Nat.even n then "6f1c" else "90ab";
     uuid_drawn := 0 |}.

(** * Properties *)

(** ** Strings *)

Lemma prefix_append (p s : string) : String.prefix p (p ++ s)%string = true.
Proof.
  induction p as [| c p IH]; simpl.
  - destruct s; reflexivity.
  - destruct (ascii_dec c c) as [_ | ne]; [exact IH | contradiction].
Qed.

Lemma append_inj_l (p a b : string) : (p ++ a = p ++ b)%string -> a = b.
Proof.
  induction p as [| c p IH]; simpl; intros H.
  - exact H.
  - injection H as H. auto.
Qed.

Lemma append_char_inj_r (c : ascii) (a b : string) :
  (a ++ String c "" = b ++ String c "")%string -> a = b.
Proof.
  revert b; induction a as [| x a IH]; intros [| y b] H; simpl in H.
  - reflexivity.
  - injection H as _ H. destruct b; discriminate.
  - injection H as _ H. destruct a; discriminate.
  - injection H as -> H. f_equal. auto.
Qed.

(** ** StorageLocationResolver *)

Lemma s3_table_prefix_eq (self : AthenaAdapter) (w : World) :
  s3_table_prefix self w = (Ok (table_root (creds self)), w).
Proof.
  unfold s3_table_prefix, table_root.
  destruct (s3_data_dir (creds self)); reflexivity.
Qed.

(** C4: the table storage root is [s3_data_dir] when it is set and
    [s3_staging_dir] followed by "tables/" otherwise; under the naming
    mode "schema_table", [s3_table_location] returns that root followed
    by the schema, a slash, the table and a slash, and calls nothing. *)
Theorem s3_table_location_schema_table (self : AthenaAdapter)
    (schema_name table_name : string) (w : World) :
  (forall d, s3_data_dir (creds self) = Some d ->
             s3_table_prefix self w = (Ok d, w)) /\
  (s3_data_dir (creds self) = None ->
   s3_table_prefix self w = (Ok (s3_staging_dir (creds self) ++ "tables/")%string, w)) /\
  (s3_data_naming (creds self) = "schema_table" ->
   forall root, s3_table_prefix self w = (Ok root, w) ->
   s3_table_location self schema_name table_name w =
     (Ok (root ++ schema_name ++ "/" ++ table_name ++ "/")%string, w)).
Proof.
  repeat split.
  - intros d Hd. unfold s3_table_prefix. rewrite Hd. reflexivity.
  - intros Hd. unfold s3_table_prefix. rewrite Hd. reflexivity.
  - intros Hn root Hroot.
    unfold s3_table_location. rewrite Hn. simpl.
    unfold s3_schema_table_location, bind. rewrite Hroot. reflexivity.
Qed.

Lemma s3_table_location_schema_table_witness :
  s3_table_location (example_adapter "schema_table") "s1" "t1" example_world =
    (Ok "s3://b/tables/s1/t1/", example_world).
Proof.
  exact (proj2 (proj2 (s3_table_location_schema_table
                         (example_adapter "schema_table") "s1" "t1" example_world))
               eq_refl "s3://b/tables/" eq_refl).
Defined.

(** C9: when [s3_data_naming] is neither "schema_table" nor "uuid",
    [s3_table_location] raises the error for the unknown value, and the
    world is as it was: no call was issued and no identifier drawn. *)
Theorem s3_table_location_unknown_naming (self : AthenaAdapter)
    (schema_name table_name : string) (w : World) :
  s3_data_naming (creds self) <> "schema_table" ->
  s3_data_naming (creds self) <> "uuid" ->
  s3_table_location self schema_name table_name w =
    (Raise (ValueError ("Unknown value for s3_data_naming: "
                        ++ s3_data_naming (creds self))%string), w).
Proof.
  intros H1 H2. unfold s3_table_location.
  apply String.eqb_neq in H1. apply String.eqb_neq in H2.
  rewrite H1, H2. reflexivity.
Qed.

Lemma s3_table_location_unknown_naming_witness :
  s3_table_location (example_adapter "table_uuid") "s1" "t1" example_world =
    (Raise (ValueError "Unknown value for s3_data_naming: table_uuid"), example_world).
Proof.
  apply (s3_table_location_unknown_naming (example_adapter "table_uuid") "s1" "t1"
           example_world); simpl; discriminate.
Defined.

Lemma s3_table_location_uuid (self : AthenaAdapter)
    (schema_name table_name : string) (w : World) :
  s3_data_naming (creds self) = "uuid" ->
  s3_table_location self schema_name table_name w =
    (Ok (table_root (creds self) ++ uuid_stream w (uuid_drawn w) ++ "/")%string,
     {| calls := calls w;
        s3_objects := s3_objects w;
        uuid_stream := uuid_stream w;
        uuid_drawn := S (uuid_drawn w) |}).
Proof.
  intros Hn. unfold s3_table_location. rewrite Hn. simpl.
  unfold s3_uuid_table_location, bind. rewrite s3_table_prefix_eq. reflexivity.
Qed.

(** C10: under the naming mode "uuid" every call of [s3_table_location]
    draws the next identifier of the generator, nothing being kept from
    one call to the next; each returned path is the table storage root,
    the identifier and a slash; and two successive calls for the same
    schema and table return different paths, the generator giving two
    different identifiers. *)
Theorem s3_table_location_uuid_fresh (self : AthenaAdapter)
    (schema_name table_name : string) (w : World) :
  s3_data_naming (creds self) = "uuid" ->
  uuid_stream w (uuid_drawn w) <> uuid_stream w (S (uuid_drawn w)) ->
  exists root path1 path2 w1 w2,
    s3_table_prefix self w = (Ok root, w) /\
    s3_table_location self schema_name table_name w = (Ok path1, w1) /\
    s3_table_location self schema_name table_name w1 = (Ok path2, w2) /\
    path1 = (root ++ uuid_stream w (uuid_drawn w) ++ "/")%string /\
    path2 = (root ++ uuid_stream w (S (uuid_drawn w)) ++ "/")%string /\
    uuid_drawn w1 = S (uuid_drawn w) /\
    uuid_drawn w2 = S (S (uuid_drawn w)) /\
    String.prefix root path1 = true /\
    String.prefix root path2 = true /\
    path1 <> path2.
Proof.
  intros Hn Hfresh.
  eexists _, _, _, _, _.
  split; [apply s3_table_prefix_eq |].
  split; [apply (s3_table_location_uuid _ _ _ _ Hn) |].
  split; [apply (s3_table_location_uuid _ _ _ _ Hn) |].
  simpl. repeat split.
  - apply prefix_append.
  - apply prefix_append.
  - intros Heq. apply append_inj_l in Heq.
    apply append_char_inj_r in Heq. contradiction.
Qed.

Lemma s3_table_location_uuid_fresh_witness :
  exists w1 w2,
    s3_table_location (example_adapter "uuid") "s1" "t1" example_world =
      (Ok "s3://b/tables/6f1c/", w1) /\
    s3_table_location (example_adapter "uuid") "s1" "t1" w1 =
      (Ok "s3://b/tables/90ab/", w2).
Proof.
  destruct (s3_table_location_uuid_fresh (example_adapter "uuid") "s1" "t1"
              example_world eq_refl)
    as (root & path1 & path2 & w1 & w2 & Hroot & H1 & H2 & E1 & E2 & _).
  - simpl. discriminate.
  - exists w1, w2.
    injection Hroot as <-. subst path1 path2. split; assumption.
Defined.

(** ** Sequencing, handlers and loops *)

Lemma bind_ok {A B} (m : M A) (k : A -> M B) (w w' : World) (a : A) :
  m w = (Ok a, w') -> bind m k w = k a w'.
Proof. intros H. unfold bind. rewrite H. reflexivity. Qed.

Lemma bind_raise {A B} (m : M A) (k : A -> M B) (w w' : World) (e : exn) :
  m w = (Raise e, w') -> bind m k w = (Raise e, w').
Proof. intros H. unfold bind. rewrite H. reflexivity. Qed.

Lemma try_except_passes {A} (body : M A) (handler : ErrorInfo -> M A)
    (w w' : World) (e : exn) :
  body w = (Raise e, w') -> is_ClientError e = false ->
  try_except_ClientError body handler w = (Raise e, w').
Proof.
  intros H Hne. unfold try_except_ClientError. rewrite H.
  destruct e; try reflexivity; discriminate.
Qed.

Lemma try_except_catches {A} (body : M A) (handler : ErrorInfo -> M A)
    (w w' : World) (ei : ErrorInfo) :
  body w = (Raise (ClientError ei), w') ->
  try_except_ClientError body handler w = handler ei w'.
Proof. intros H. unfold try_except_ClientError. rewrite H. reflexivity. Qed.

Lemma try_except_returns {A} (body : M A) (handler : ErrorInfo -> M A)
    (w w' : World) (a : A) :
  body w = (Ok a, w') -> try_except_ClientError body handler w = (Ok a, w').
Proof. intros H. unfold try_except_ClientError. rewrite H. reflexivity. Qed.

Section Loops.
Context {A L : Type} (body : A -> L -> M L).

Lemma for_each_completes (xs : list A) :
  Forall (completes body) xs ->
  forall acc w, exists acc' w', for_each xs body acc w = (Ok acc', w').
Proof.
  induction 1 as [| x xs Hx _ IH]; intros acc w; simpl.
  - exists acc, w. reflexivity.
  - destruct (Hx acc w) as (acc1 & w1 & E).
    rewrite (bind_ok _ _ _ _ _ E). apply IH.
Qed.

Lemma for_each_fails_with (before after : list A) (x : A) (e : exn) :
  Forall (completes body) before -> fails_with body e x ->
  forall acc w, exists w', for_each (before ++ x :: after) body acc w = (Raise e, w').
Proof.
  intros Hb Hx. induction Hb as [| y ys Hy _ IH]; intros acc w; simpl.
  - destruct (Hx acc w) as (w1 & E). exists w1. apply bind_raise, E.
  - destruct (Hy acc w) as (acc1 & w1 & E).
    rewrite (bind_ok _ _ _ _ _ E). apply IH.
Qed.
End Loops.

Section Pages.
Context {L : Type} (body : GlueTable -> L -> M L) (params : QueryParams).

Lemma for_pages_completes (served : list (list GlueTable)) :
  Forall (Forall (completes body)) served ->
  forall i acc w, exists acc' w',
    for_pages params i (map Ok served) body acc w = (Ok acc', w').
Proof.
  induction 1 as [| ts tss Hts _ IH]; intros i acc w; simpl.
  - exists acc, w. reflexivity.
  - unfold bind at 1. unfold remote at 1.
    destruct (for_each_completes body ts Hts acc (log (GlueGetTables params i) w))
      as (acc1 & w1 & E).
    rewrite (bind_ok _ _ _ _ _ E). apply IH.
Qed.

(** The pages before the one that fails are served and their tables
    processed; the failing page is denied, or holds the table on which
    the body raises. *)
Lemma for_pages_denied (served : list (list GlueTable)) (e : exn)
    (later : list (Result (list GlueTable))) :
  Forall (Forall (completes body)) served ->
  forall i acc w, exists w',
    for_pages params i (map Ok served ++ Raise e :: later) body acc w = (Raise e, w').
Proof.
  induction 1 as [| ts tss Hts _ IH]; intros i acc w; simpl.
  - eexists. reflexivity.
  - unfold bind at 1. unfold remote at 1.
    destruct (for_each_completes body ts Hts acc (log (GlueGetTables params i) w))
      as (acc1 & w1 & E).
    rewrite (bind_ok _ _ _ _ _ E). apply IH.
Qed.

Lemma for_pages_fails_with (served : list (list GlueTable))
    (before after : list GlueTable) (x : GlueTable) (e : exn)
    (later : list (Result (list GlueTable))) :
  Forall (Forall (completes body)) served ->
  Forall (completes body) before -> fails_with body e x ->
  forall i acc w, exists w',
    for_pages params i (map Ok served ++ Ok (before ++ x :: after) :: later) body acc w
    = (Raise e, w').
Proof.
  intros Hs Hb Hx. induction Hs as [| ts tss Hts _ IH]; intros i acc w; simpl.
  - unfold bind at 1. unfold remote at 1.
    destruct (for_each_fails_with body before after x e Hb Hx acc
                (log (GlueGetTables params i) w)) as (w1 & E).
    exists w1. apply bind_raise, E.
  - unfold bind at 1. unfold remote at 1.
    destruct (for_each_completes body ts Hts acc (log (GlueGetTables params i) w))
      as (acc1 & w1 & E).
    rewrite (bind_ok _ _ _ _ _ E). apply IH.
Qed.
End Pages.

(** ** Calls a method does not issue *)

Section Silent.
Context (select : Call -> bool).

Lemma silent_ret {A} (a : A) : silent select (ret a).
Proof. intros w r w' H. injection H as _ <-. reflexivity. Qed.

Lemma silent_raise {A} (e : exn) : silent select (@raise A e).
Proof. intros w r w' H. injection H as _ <-. reflexivity. Qed.

Lemma silent_remote {A} (c : Call) (outcome : Result A) :
  select c = false -> silent select (remote c outcome).
Proof.
  intros Hc w r w' H. injection H as _ <-.
  unfold issued, log. simpl. rewrite filter_app. simpl. rewrite Hc.
  apply app_nil_r.
Qed.

Lemma silent_bind {A B} (m : M A) (k : A -> M B) :
  silent select m -> (forall a, silent select (k a)) -> silent select (bind m k).
Proof.
  intros Hm Hk w r w' H. unfold bind in H.
  destruct (m w) as [[a | e] w1] eqn:E.
  - rewrite (Hk a _ _ _ H). apply (Hm _ _ _ E).
  - injection H as _ <-. apply (Hm _ _ _ E).
Qed.

Lemma silent_for_each {A L} (body : A -> L -> M L) (xs : list A) :
  (forall x acc, silent select (body x acc)) ->
  forall acc, silent select (for_each xs body acc).
Proof.
  intros Hb. induction xs as [| x xs IH]; intros acc; simpl.
  - apply silent_ret.
  - apply silent_bind; [apply Hb | intros a; apply IH].
Qed.

Lemma silent_for_pages {L} (body : GlueTable -> L -> M L) (params : QueryParams)
    (pages : list (Result (list GlueTable))) :
  (forall p i, select (GlueGetTables p i) = false) ->
  (forall x acc, silent select (body x acc)) ->
  forall i acc, silent select (for_pages params i pages body acc).
Proof.
  intros Hsel Hb. induction pages as [| page pages IH]; intros i acc; simpl.
  - apply silent_ret.
  - apply silent_bind; [apply silent_remote, Hsel |].
    intros ts. apply silent_bind; [apply silent_for_each, Hb | intros a; apply IH].
Qed.

Lemma silent_retrieve {L} (self : AthenaAdapter) (catalog_id name : string)
    (body : GlueTable -> L -> M L) (acc : L) :
  (forall p i, select (GlueGetTables p i) = false) ->
  (forall x acc, silent select (body x acc)) ->
  silent select (_retrieve_glue_tables self catalog_id name body acc).
Proof.
  intros Hsel Hb. unfold _retrieve_glue_tables.
  destruct (String.eqb catalog_id ""); [apply silent_raise |].
  destruct (String.eqb name ""); [apply silent_raise |].
  apply silent_for_pages; assumption.
Qed.

Lemma silent_classifier (table : GlueTable) :
  silent select (_get_rel_type_from_glue_response table).
Proof.
  unfold _get_rel_type_from_glue_response.
  destruct (String.eqb _ _); [apply silent_ret |].
  destruct (String.eqb _ _); [apply silent_ret | apply silent_raise].
Qed.
End Silent.

(** ** RelationTranslator and the retrieval preconditions *)

Lemma classifier_known (table : GlueTable) (w : World) :
  known_kind table = true ->
  exists t, _get_rel_type_from_glue_response table w = (Ok t, w).
Proof.
  unfold known_kind, _get_rel_type_from_glue_response. intros H.
  destruct (String.eqb (TableType table) "VIRTUAL_VIEW"); [eexists; reflexivity |].
  destruct (String.eqb (TableType table) "EXTERNAL_TABLE"); [eexists; reflexivity |].
  discriminate.
Qed.

Lemma classifier_unknown (table : GlueTable) (w : World) :
  known_kind table = false ->
  _get_rel_type_from_glue_response table w = (Raise (unknown_table_type table), w).
Proof.
  unfold known_kind, _get_rel_type_from_glue_response. intros H.
  apply orb_false_iff in H as [H1 H2]. rewrite H1, H2. reflexivity.
Qed.

Lemma unknown_kind_iff (table : GlueTable) :
  known_kind table = false <->
  TableType table <> "VIRTUAL_VIEW" /\ TableType table <> "EXTERNAL_TABLE".
Proof.
  unfold known_kind. rewrite orb_false_iff, !String.eqb_neq. reflexivity.
Qed.

Lemma relation_of_table_classifying (schema_relation : AthenaRelation) :
  classifying (relation_of_table schema_relation).
Proof.
  exists (fun table rel_type relations =>
            relations ++ [ {| database := database schema_relation;
                              identifier := Name table;
                              schema := schema schema_relation;
                              quote_policy := default_quote_policy;
                              type := Some rel_type;
                              column_information :=
                                Columns (Descriptor table) ++ PartitionKeys table |} ]).
  reflexivity.
Qed.

Lemma catalog_rows_of_table_classifying (target_database schema_name : string) :
  classifying (catalog_rows_of_table target_database schema_name).
Proof.
  exists (fun table rel_type rows =>
            fold_left
              (fun rows ic =>
                 rows ++ [column_row
                            (table_row_of target_database schema_name table rel_type)
                            (fst ic) (snd ic)])
              (enumerate (Columns (Descriptor table) ++ PartitionKeys table))
              rows).
  reflexivity.
Qed.

Section Classifying.
Context {L : Type} (body : GlueTable -> L -> M L) (Hbody : classifying body).

Lemma classifying_completes (table : GlueTable) :
  known_kind table = true -> completes body table.
Proof.
  destruct Hbody as [f Hf]. intros Hk acc w. rewrite Hf.
  destruct (classifier_known table w Hk) as [t E].
  rewrite (bind_ok _ _ _ _ _ E). eexists _, _. reflexivity.
Qed.

Lemma classifying_fails (table : GlueTable) :
  known_kind table = false -> fails_with body (unknown_table_type table) table.
Proof.
  destruct Hbody as [f Hf]. intros Hk acc w. rewrite Hf.
  exists w. apply bind_raise, classifier_unknown, Hk.
Qed.

Lemma classifying_silent (select : Call -> bool) (table : GlueTable) (acc : L) :
  silent select (body table acc).
Proof.
  destruct Hbody as [f Hf]. rewrite Hf.
  apply silent_bind; [apply silent_classifier | intros; apply silent_ret].
Qed.

Lemma known_tables_complete (ts : list GlueTable) :
  Forall (fun t => known_kind t = true) ts -> Forall (completes body) ts.
Proof. apply Forall_impl, classifying_completes. Qed.

Lemma known_pages_complete (tss : list (list GlueTable)) :
  Forall (Forall (fun t => known_kind t = true)) tss ->
  Forall (Forall (completes body)) tss.
Proof. apply Forall_impl, known_tables_complete. Qed.

Variables (self : AthenaAdapter) (catalog_id name : string).
Hypotheses (Hcatalog : catalog_id <> "") (Hname : name <> "").

Let pages := get_tables_pages (glue_client self) (query_params catalog_id name).

Lemma retrieve_unfold (acc : L) :
  _retrieve_glue_tables self catalog_id name body acc
  = for_pages (query_params catalog_id name) 0 pages body acc.
Proof.
  unfold _retrieve_glue_tables.
  apply String.eqb_neq in Hcatalog. apply String.eqb_neq in Hname.
  rewrite Hcatalog, Hname. reflexivity.
Qed.

Lemma retrieve_completes (acc : L) (w : World) :
  all_served pages ->
  exists acc' w', _retrieve_glue_tables self catalog_id name body acc w = (Ok acc', w').
Proof.
  intros (served & Hp & Hk). rewrite retrieve_unfold, Hp.
  apply for_pages_completes, known_pages_complete, Hk.
Qed.

Lemma retrieve_unknown (table : GlueTable) (acc : L) (w : World) :
  reaches pages table -> known_kind table = false ->
  exists w', _retrieve_glue_tables self catalog_id name body acc w
             = (Raise (unknown_table_type table), w').
Proof.
  intros (served & before & after & later & Hp & Hs & Hb) Hk.
  rewrite retrieve_unfold, Hp.
  apply for_pages_fails_with.
  - apply known_pages_complete, Hs.
  - apply known_tables_complete, Hb.
  - apply classifying_fails, Hk.
Qed.

Lemma retrieve_denied (e : exn) (acc : L) (w : World) :
  denied_with pages e ->
  exists w', _retrieve_glue_tables self catalog_id name body acc w = (Raise e, w').
Proof.
  intros (served & later & Hp & Hs). rewrite retrieve_unfold, Hp.
  apply for_pages_denied, known_pages_complete, Hs.
Qed.
End Classifying.

Lemma retrieve_missing_identifier {L} (self : AthenaAdapter) (catalog_id name : string)
    (body : GlueTable -> L -> M L) (acc : L) (w : World) :
  catalog_id = "" \/ name = "" ->
  _retrieve_glue_tables self catalog_id name body acc w
  = (Raise (missing_identifier catalog_id), w).
Proof.
  unfold _retrieve_glue_tables, missing_identifier.
  destruct (String.eqb catalog_id "") eqn:Ec; [reflexivity |].
  apply String.eqb_neq in Ec. intros [H | H]; [contradiction |].
  subst name. reflexivity.
Qed.

Lemma glue_catalog_raises (self : AthenaAdapter) (target_database : string)
    (before after : list string) (schema_name : string) (manifest : Manifest) (e : exn) :
  Forall (completes (schema_rows self target_database)) before ->
  fails_with (schema_rows self target_database) e schema_name ->
  forall w, exists w',
    glue_catalog self target_database (before ++ schema_name :: after) manifest w
    = (Raise e, w').
Proof.
  intros Hb Hs w.
  destruct (for_each_fails_with (schema_rows self target_database)
              before after schema_name e Hb Hs [] w) as (w' & E).
  exists w'. unfold glue_catalog. apply bind_raise. exact E.
Qed.

Lemma retrievable_completes (self : AthenaAdapter) (target_database : string)
    (schemas : list string) :
  target_database <> "" ->
  Forall (retrievable self target_database) schemas ->
  Forall (completes (schema_rows self target_database)) schemas.
Proof.
  intros Hdb. apply Forall_impl. intros s [Hs Hserved] acc w.
  apply retrieve_completes; auto using catalog_rows_of_table_classifying.
Qed.

Lemma table_from_rows_silent (select : Call -> bool) (self : AthenaAdapter)
    (rows : list (list PyVal)) (column_names text_only_columns : option (list string)) :
  silent select (table_from_rows self rows column_names text_only_columns).
Proof.
  unfold table_from_rows. destruct column_names; [| apply silent_raise].
  intros w r w' H. injection H as _ <-. reflexivity.
Qed.

Lemma catalog_table_silent (select : Call -> bool) (self : AthenaAdapter)
    (manifest : Manifest) (rows : list Dict) :
  silent select
    match rows with
    | [] => table_from_rows self [] None None
    | first :: _ =>
        table <- table_from_rows self (map values rows) (Some (keys first))
                   (Some ["table_database"; "table_schema"; "table_name"]) ;;
        ret (_catalog_filter_table self table manifest)
    end.
Proof.
  destruct rows as [| first rows]; [apply table_from_rows_silent |].
  apply silent_bind; [apply table_from_rows_silent | intros t; apply silent_ret].
Qed.

Lemma glue_catalog_silent (select : Call -> bool) (self : AthenaAdapter)
    (target_database : string) (target_schemas : list string) (manifest : Manifest) :
  (forall p i, select (GlueGetTables p i) = false) ->
  silent select (glue_catalog self target_database target_schemas manifest).
Proof.
  intros Hsel. unfold glue_catalog. apply silent_bind.
  - apply silent_for_each. intros s rows. apply silent_retrieve; [exact Hsel |].
    intros t acc. apply classifying_silent, catalog_rows_of_table_classifying.
  - intros rows. apply catalog_table_silent.
Qed.

(** What [_get_one_catalog] does when the [try] block raises. *)
Lemma get_one_catalog_raises (self : AthenaAdapter)
    (information_schema : InformationSchema) (schemas : list string)
    (manifest : Manifest) (schema_list : list string) (e : exn) (w w' : World) :
  list_schemas self (info_database information_schema) = Ok schema_list ->
  glue_catalog self (info_database information_schema)
    (target_schemas_of self manifest schema_list) manifest
    (log (SqlListSchemas (info_database information_schema)) w) = (Raise e, w') ->
  _get_one_catalog self information_schema schemas manifest w
  = match e with
    | ClientError _ => sql_catalog self information_schema schemas manifest w'
    | _ => (Raise e, w')
    end
  /\ (issued sql_fallback w' = issued sql_fallback w).
Proof.
  intros Hls Hg. split.
  - unfold _get_one_catalog, bind at 1, remote at 1. rewrite Hls.
    unfold try_except_ClientError. rewrite Hg. destruct e; reflexivity.
  - rewrite (glue_catalog_silent sql_fallback _ _ _ _ (fun _ _ => eq_refl) _ _ _ Hg).
    unfold issued, log. simpl. rewrite filter_app. simpl. apply app_nil_r.
Qed.

(** C3: the classifier returns [View] for the kind "VIRTUAL_VIEW" and
    [Table] for the kind "EXTERNAL_TABLE", and raises on every other
    kind; when the loop of [list_relations_without_caching] or of
    [_get_one_catalog] gets to such a table, the call raises that very
    error, and neither SQL fallback is called. *)
Theorem rel_type_classification (table : GlueTable) :
  (TableType table = "VIRTUAL_VIEW" ->
   forall w, _get_rel_type_from_glue_response table w = (Ok View, w)) /\
  (TableType table = "EXTERNAL_TABLE" ->
   forall w, _get_rel_type_from_glue_response table w = (Ok Table, w)) /\
  (TableType table <> "VIRTUAL_VIEW" -> TableType table <> "EXTERNAL_TABLE" ->
   (forall w, _get_rel_type_from_glue_response table w
              = (Raise (unknown_table_type table), w)) /\
   (forall self schema_relation w,
      database schema_relation <> "" -> schema schema_relation <> "" ->
      reaches (pages_of self (database schema_relation) (schema schema_relation)) table ->
      exists w',
        list_relations_without_caching self schema_relation w
        = (Raise (unknown_table_type table), w') /\
        issued sql_fallback w' = issued sql_fallback w) /\
   (forall self information_schema schemas manifest w schema_list before schema_name after,
      list_schemas self (info_database information_schema) = Ok schema_list ->
      target_schemas_of self manifest schema_list = before ++ schema_name :: after ->
      info_database information_schema <> "" ->
      Forall (retrievable self (info_database information_schema)) before ->
      schema_name <> "" ->
      reaches (pages_of self (info_database information_schema) schema_name) table ->
      exists w',
        _get_one_catalog self information_schema schemas manifest w
        = (Raise (unknown_table_type table), w') /\
        issued sql_fallback w' = issued sql_fallback w)).
Proof.
  split; [| split].
  - intros H w. unfold _get_rel_type_from_glue_response. rewrite H. reflexivity.
  - intros H w. unfold _get_rel_type_from_glue_response. rewrite H. reflexivity.
  - intros H1 H2.
    assert (Hk : known_kind table = false) by (apply unknown_kind_iff; auto).
    split; [| split].
    + intros w. apply classifier_unknown, Hk.
    + intros self schema_relation w Hdb Hs Hr.
      destruct (retrieve_unknown _ (relation_of_table_classifying schema_relation)
                  self _ _ Hdb Hs table [] w Hr Hk) as (w' & E).
      exists w'. split.
      * unfold list_relations_without_caching.
        apply try_except_passes; [exact E | reflexivity].
      * apply (silent_retrieve sql_fallback self _ _ _ []
                 (fun _ _ => eq_refl)
                 (classifying_silent _ (relation_of_table_classifying schema_relation)
                    sql_fallback) _ _ _ E).
    + intros self information_schema schemas manifest w schema_list before
        schema_name after Hls Hts Hdb Hb Hs Hr.
      destruct (glue_catalog_raises self (info_database information_schema)
                  before after schema_name manifest (unknown_table_type table)
                  (retrievable_completes _ _ _ Hdb Hb)
                  (fun acc w0 =>
                     retrieve_unknown _
                       (catalog_rows_of_table_classifying _ schema_name)
                       self _ _ Hdb Hs table acc w0 Hr Hk)
                  (log (SqlListSchemas (info_database information_schema)) w))
        as (w' & E).
      rewrite <- Hts in E.
      destruct (get_one_catalog_raises self information_schema schemas manifest
                  schema_list _ w w' Hls E) as [Hres Hsil].
      exists w'. split; assumption.
Qed.

Lemma rel_type_classification_witness :
  _get_rel_type_from_glue_response (example_table "t2" "MANAGED_TABLE") example_world
  = (Raise (RuntimeException "Unknown table type MANAGED_TABLE for t2"), example_world)
  /\ (exists w',
        list_relations_without_caching (example_adapter "uuid")
          (example_relation "lake" "s2") example_world
        = (Raise (RuntimeException "Unknown table type MANAGED_TABLE for t2"), w') /\
        issued sql_fallback w' = issued sql_fallback example_world)
  /\ (exists w',
        _get_one_catalog (example_adapter "uuid") {| info_database := "lake" |} ["s2"]
          example_manifest example_world
        = (Raise (RuntimeException "Unknown table type MANAGED_TABLE for t2"), w') /\
        issued sql_fallback w' = issued sql_fallback example_world).
Proof.
  destruct (rel_type_classification (example_table "t2" "MANAGED_TABLE"))
    as (_ & _ & H).
  destruct H as (Hc & Hl & Hg); [simpl; discriminate | simpl; discriminate |].
  assert (Hr : reaches (pages_of (example_adapter "uuid") "lake" "s2")
                 (example_table "t2" "MANAGED_TABLE")).
  { exists [], [example_table "v1" "VIRTUAL_VIEW"], [], [].
    repeat split; repeat constructor. }
  split; [apply Hc | split].
  - apply (Hl (example_adapter "uuid") (example_relation "lake" "s2") example_world);
      [simpl; discriminate | simpl; discriminate | exact Hr].
  - apply (Hg (example_adapter "uuid") {| info_database := "lake" |} ["s2"]
             example_manifest example_world ["s2"] [] "s2" []);
      [reflexivity | reflexivity | simpl; discriminate | constructor
      | discriminate | exact Hr].
Defined.

Lemma schema_rows_missing_identifier (self : AthenaAdapter) (catalog_id name : string) :
  catalog_id = "" \/ name = "" ->
  fails_with (schema_rows self catalog_id) (missing_identifier catalog_id) name.
Proof.
  intros H acc w. exists w. apply retrieve_missing_identifier, H.
Qed.

(** C7: the table retrieval called with an empty catalog identifier or
    an empty schema name raises its error with the world untouched, so
    before any remote call; [list_relations_without_caching] and
    [_get_one_catalog] let that error through, and neither calls its SQL
    fallback. *)
Theorem retrieve_requires_identifiers (self : AthenaAdapter) (catalog_id name : string) :
  catalog_id = "" \/ name = "" ->
  (forall (L : Type) (body : GlueTable -> L -> M L) (acc : L) (w : World),
     _retrieve_glue_tables self catalog_id name body acc w
     = (Raise (missing_identifier catalog_id), w)) /\
  (forall schema_relation w,
     database schema_relation = catalog_id -> schema schema_relation = name ->
     list_relations_without_caching self schema_relation w
     = (Raise (missing_identifier catalog_id), w)) /\
  (forall information_schema schemas manifest w schema_list before after,
     info_database information_schema = catalog_id ->
     list_schemas self catalog_id = Ok schema_list ->
     target_schemas_of self manifest schema_list = before ++ name :: after ->
     Forall (retrievable self catalog_id) before ->
     exists w',
       _get_one_catalog self information_schema schemas manifest w
       = (Raise (missing_identifier catalog_id), w') /\
       issued sql_fallback w' = issued sql_fallback w).
Proof.
  intros Hmissing. split; [| split].
  - intros L body acc w. apply retrieve_missing_identifier, Hmissing.
  - intros schema_relation w Hdb Hs.
    unfold list_relations_without_caching. rewrite Hdb, Hs.
    apply try_except_passes.
    + apply retrieve_missing_identifier, Hmissing.
    + unfold missing_identifier. destruct (String.eqb catalog_id ""); reflexivity.
  - intros information_schema schemas manifest w schema_list before after
      Hdb Hls Hts Hb.
    assert (Hraise : exists w',
      glue_catalog self catalog_id (before ++ name :: after) manifest
        (log (SqlListSchemas catalog_id) w)
      = (Raise (missing_identifier catalog_id), w')).
    { destruct (String.eqb catalog_id "") eqn:Ec.
      - apply String.eqb_eq in Ec.
        destruct before as [| first before].
        + apply (glue_catalog_raises self catalog_id [] after name);
            [constructor | apply schema_rows_missing_identifier; auto].
        + apply (glue_catalog_raises self catalog_id [] (before ++ name :: after) first);
            [constructor | apply schema_rows_missing_identifier; auto].
      - apply String.eqb_neq in Ec.
        apply glue_catalog_raises.
        + apply retrievable_completes; assumption.
        + apply schema_rows_missing_identifier, Hmissing. }
    destruct Hraise as (w' & E). rewrite <- Hts in E. subst catalog_id.
    destruct (get_one_catalog_raises self information_schema schemas manifest
                schema_list _ w w' Hls E) as [Hres Hsil].
    exists w'. split; [| exact Hsil].
    rewrite Hres. unfold missing_identifier.
    destruct (String.eqb (info_database information_schema) ""); reflexivity.
Qed.

Lemma retrieve_requires_identifiers_witness :
  list_relations_without_caching (example_adapter "uuid")
    (example_relation "awsdatacatalog" "") example_world
  = (Raise (RuntimeException "Glue GetTables: Need database name"), example_world)
  /\ list_relations_without_caching (example_adapter "uuid")
       (example_relation "" "s1") example_world
     = (Raise (RuntimeException "Glue GetTables: Need catalog id"), example_world).
Proof.
  split.
  - apply (proj1 (proj2 (retrieve_requires_identifiers (example_adapter "uuid")
                           "awsdatacatalog" "" (or_intror eq_refl))));
      reflexivity.
  - apply (proj1 (proj2 (retrieve_requires_identifiers (example_adapter "uuid")
                           "" "s1" (or_introl eq_refl))));
      reflexivity.
Defined.

(** ** Column assembly *)

Lemma enumerate_from_fst {A} (xs : list A) (i : nat) :
  map fst (enumerate_from i xs) = seq i (length xs).
Proof.
  revert i; induction xs as [| x xs IH]; intros i; simpl; [| rewrite IH]; reflexivity.
Qed.

Lemma enumerate_from_snd {A} (xs : list A) (i : nat) :
  map snd (enumerate_from i xs) = xs.
Proof.
  revert i; induction xs as [| x xs IH]; intros i; simpl; [| rewrite IH]; reflexivity.
Qed.

(** The four column keys are not keys of the table-wide row, so the
    update appends them and a lookup finds the column's values. *)
Lemma column_row_get (target_database schema_name : string) (table : GlueTable)
    (rel_type : RelationType) (idx : nat) (col : GlueColumn) :
  let row := column_row (table_row_of target_database schema_name table rel_type) idx col in
  dict_get row "column_name" = Some (VStr (col_Name col)) /\
  dict_get row "column_type" = Some (VStr (col_Type col)) /\
  dict_get row "column_index" = Some (VInt (Z.of_nat idx)).
Proof. cbv zeta. split; [| split]; reflexivity. Qed.

Lemma append_each {A B} (f : A -> B) (xs : list A) (acc : list B) :
  fold_left (fun acc x => acc ++ [f x]) xs acc = acc ++ map f xs.
Proof.
  revert acc; induction xs as [| x xs IH]; intros acc; simpl.
  - symmetry. apply app_nil_r.
  - rewrite IH, <- app_assoc. reflexivity.
Qed.

Lemma rows_of_table_columns (target_database schema_name : string) (table : GlueTable)
    (rel_type : RelationType) :
  let cols := Columns (Descriptor table) ++ PartitionKeys table in
  let rows := rows_of_table target_database schema_name table rel_type in
  map (fun row => dict_get row "column_name") rows
  = map (fun col => Some (VStr (col_Name col))) cols /\
  map (fun row => dict_get row "column_type") rows
  = map (fun col => Some (VStr (col_Type col))) cols /\
  map (fun row => dict_get row "column_index") rows
  = map (fun i => Some (VInt (Z.of_nat i))) (seq 0 (length cols)).
Proof.
  intros cols rows. unfold rows, rows_of_table. fold cols. rewrite !map_map.
  unfold enumerate.
  rewrite <- (enumerate_from_snd cols 0) at 2 4.
  rewrite <- (enumerate_from_fst cols 0).
  rewrite !map_map.
  repeat split; apply map_ext; intros [i col];
    apply (column_row_get target_database schema_name table rel_type i col).
Qed.

(** C2: the relation built for a table carries the storage-descriptor
    columns followed by the partition keys, as they come, nothing
    removed and nothing reordered; and the catalog rows appended for the
    table are one per column of that combined list, in its order, with
    the indices 0, 1, 2, ... *)
Theorem column_assembly (table : GlueTable) :
  known_kind table = true ->
  let cols := Columns (Descriptor table) ++ PartitionKeys table in
  (forall schema_relation relations w,
   exists relation,
     relation_of_table schema_relation table relations w
     = (Ok (relations ++ [relation]), w) /\
     column_information relation = cols) /\
  (forall target_database schema_name rows w,
   exists new_rows,
     catalog_rows_of_table target_database schema_name table rows w
     = (Ok (rows ++ new_rows), w) /\
     map (fun row => dict_get row "column_name") new_rows
     = map (fun col => Some (VStr (col_Name col))) cols /\
     map (fun row => dict_get row "column_type") new_rows
     = map (fun col => Some (VStr (col_Type col))) cols /\
     map (fun row => dict_get row "column_index") new_rows
     = map (fun i => Some (VInt (Z.of_nat i))) (seq 0 (length cols))).
Proof.
  intros Hk cols. split.
  - intros schema_relation relations w.
    destruct (classifier_known table w Hk) as [t E].
    eexists. split.
    + unfold relation_of_table. rewrite (bind_ok _ _ _ _ _ E). reflexivity.
    + reflexivity.
  - intros target_database schema_name rows w.
    destruct (classifier_known table w Hk) as [t E].
    exists (rows_of_table target_database schema_name table t). split.
    + unfold catalog_rows_of_table. rewrite (bind_ok _ _ _ _ _ E).
      cbv zeta. rewrite append_each. reflexivity.
    + apply rows_of_table_columns.
Qed.

(** The storage columns a and b and the partition key p of the claim. *)
Lemma column_assembly_witness :
  (exists relation,
     relation_of_table (example_relation "awsdatacatalog" "s1")
       (example_table "t1" "EXTERNAL_TABLE") [] example_world
     = (Ok [relation], example_world) /\
     column_information relation
     = [column "a" "int"; column "b" "string"; column "p" "date"]) /\
  (exists new_rows,
     catalog_rows_of_table "awsdatacatalog" "s1"
       (example_table "t1" "EXTERNAL_TABLE") [] example_world
     = (Ok new_rows, example_world) /\
     map (fun row => dict_get row "column_name") new_rows
     = [Some (VStr "a"); Some (VStr "b"); Some (VStr "p")] /\
     map (fun row => dict_get row "column_index") new_rows
     = [Some (VInt 0); Some (VInt 1); Some (VInt 2)]).
Proof.
  destruct (column_assembly (example_table "t1" "EXTERNAL_TABLE") eq_refl) as [Hr Hc].
  split.
  - exact (Hr (example_relation "awsdatacatalog" "s1") [] example_world).
  - destruct (Hc "awsdatacatalog" "s1" [] example_world)
      as (new_rows & Hrun & Hname & _ & Hidx).
    exists new_rows. repeat split; assumption.
Defined.

Example column_indices_example :
  map (fun row => (dict_get row "column_name", dict_get row "column_index"))
      (rows_of_table "awsdatacatalog" "s1" (example_table "t1" "EXTERNAL_TABLE") Table)
  = [(Some (VStr "a"), Some (VInt 0)); (Some (VStr "b"), Some (VInt 1));
     (Some (VStr "p"), Some (VInt 2))].
Proof. reflexivity. Qed.

(** ** The SQL fallback of the catalog *)

Lemma sql_catalog_eq (self : AthenaAdapter) (information_schema : InformationSchema)
    (schemas : list string) (manifest : Manifest) (w : World) :
  sql_catalog self information_schema schemas manifest w
  = (sql_path_result self information_schema schemas manifest,
     log (SqlExecuteMacro GET_CATALOG_MACRO_NAME
            (info_database information_schema) schemas) w).
Proof.
  unfold sql_catalog, sql_path_result, bind, remote.
  destruct (execute_macro self _ _ _ _); reflexivity.
Qed.

(** The claim C1 as written fails where it speaks of the schema listing:
    the listing runs before the guarded block, so a [ClientError] it
    raises reaches the caller, and the macro is not executed. *)
Lemma schema_listing_error_not_recovered :
  let self := example_adapter "schema_table" in
  let information_schema := {| info_database := "offline" |} in
  let outcome := _get_one_catalog self information_schema ["s1"]
                   example_manifest example_world in
  list_schemas self "offline" = Raise (ClientError access_denied) /\
  fst outcome = Raise (ClientError access_denied) /\
  sql_path_result self information_schema ["s1"] example_manifest = Ok sql_table /\
  fst outcome <> sql_path_result self information_schema ["s1"] example_manifest /\
  issued sql_fallback (snd outcome) = [].
Proof.
  cbv zeta. repeat split; try reflexivity. discriminate.
Qed.

(** C1, amended: once the schema listing has returned, a [ClientError]
    raised at any point of the table retrieval makes [_get_one_catalog]
    drop the rows gathered so far and return what the SQL path returns
    for the same information schema, schemas and manifest, the macro
    being executed once, after the Glue calls; in particular this is so
    when the service refuses a page after having served others. An
    error of the schema listing itself reaches the caller. *)
Theorem get_one_catalog_fallback (self : AthenaAdapter)
    (information_schema : InformationSchema) (schemas : list string)
    (manifest : Manifest) (w : World) :
  let db := info_database information_schema in
  let macro := SqlExecuteMacro GET_CATALOG_MACRO_NAME db schemas in
  (forall schema_list ei w',
     list_schemas self db = Ok schema_list ->
     glue_catalog self db (target_schemas_of self manifest schema_list) manifest
       (log (SqlListSchemas db) w) = (Raise (ClientError ei), w') ->
     _get_one_catalog self information_schema schemas manifest w
     = (sql_path_result self information_schema schemas manifest, log macro w')) /\
  (forall schema_list before schema_name after ei,
     list_schemas self db = Ok schema_list ->
     target_schemas_of self manifest schema_list = before ++ schema_name :: after ->
     db <> "" -> Forall (retrievable self db) before -> schema_name <> "" ->
     denied_with (pages_of self db schema_name) (ClientError ei) ->
     exists w',
       _get_one_catalog self information_schema schemas manifest w
       = (sql_path_result self information_schema schemas manifest, log macro w') /\
       issued sql_fallback w' = issued sql_fallback w) /\
  (forall e,
     list_schemas self db = Raise e ->
     _get_one_catalog self information_schema schemas manifest w
     = (Raise e, log (SqlListSchemas db) w)).
Proof.
  intros db macro. split; [| split].
  - intros schema_list ei w' Hls Hg.
    destruct (get_one_catalog_raises self information_schema schemas manifest
                schema_list _ w w' Hls Hg) as [Hres _].
    rewrite Hres. apply sql_catalog_eq.
  - intros schema_list before schema_name after ei Hls Hts Hdb Hb Hs Hd.
    destruct (glue_catalog_raises self db before after schema_name manifest
                (ClientError ei)
                (retrievable_completes _ _ _ Hdb Hb)
                (fun acc w0 =>
                   retrieve_denied _ (catalog_rows_of_table_classifying _ schema_name)
                     self _ _ Hdb Hs (ClientError ei) acc w0 Hd)
                (log (SqlListSchemas db) w))
      as (w' & E).
    rewrite <- Hts in E.
    destruct (get_one_catalog_raises self information_schema schemas manifest
                schema_list _ w w' Hls E) as [Hres Hsil].
    exists w'. split; [| exact Hsil].
    rewrite Hres. apply sql_catalog_eq.
  - intros e Hls. unfold _get_one_catalog, bind, remote. fold db. rewrite Hls.
    reflexivity.
Qed.

(** The service serves the page holding t1, then refuses the next one:
    the three rows of t1 are dropped and the SQL table is returned. *)
Lemma get_one_catalog_fallback_witness :
  exists w',
    _get_one_catalog (example_adapter "schema_table")
      {| info_database := "awsdatacatalog" |} ["s1"] example_manifest example_world
    = (Ok sql_table, w') /\
    calls w' = [SqlListSchemas "awsdatacatalog";
                GlueGetTables (query_params "awsdatacatalog" "S1") 0;
                GlueGetTables (query_params "awsdatacatalog" "S1") 1;
                SqlExecuteMacro "get_catalog" "awsdatacatalog" ["s1"]].
Proof.
  eexists. split.
  - apply (proj1 (get_one_catalog_fallback (example_adapter "schema_table")
                    {| info_database := "awsdatacatalog" |} ["s1"] example_manifest
                    example_world)
             ["S1"; "unused"] access_denied);
      reflexivity.
  - reflexivity.
Defined.

(** ** StorageCleaner *)

Lemma span_append (keep : ascii -> bool) (s : string) :
  (fst (span keep s) ++ snd (span keep s))%string = s.
Proof.
  induction s as [| c s IH]; simpl; [reflexivity |].
  destruct (keep c); [| reflexivity].
  destruct (span keep s) as [a b]. simpl in *. now rewrite IH.
Qed.

Lemma strip_prefix_append (p s rest : string) :
  strip_prefix p s = Some rest -> s = (p ++ rest)%string.
Proof.
  revert s; induction p as [| a p IH]; intros s H; simpl in *.
  - now injection H as ->.
  - destruct s as [| b s]; [discriminate |].
    destruct (Ascii.eqb a b) eqn:E; [| discriminate].
    apply Ascii.eqb_eq in E. subst b. now rewrite (IH _ H).
Qed.

(** The groups of a match are cut out of the location. *)
Lemma s3_location_match_sound (location bucket_name pfx : string) :
  s3_location_match location = Some (bucket_name, pfx) ->
  exists rest,
    location = ("s3://" ++ bucket_name ++ "/" ++ pfx ++ rest)%string.
Proof.
  unfold s3_location_match.
  destruct (strip_prefix "s3://" location) as [after_scheme |] eqn:Es; [| discriminate].
  pose proof (span_append (fun c => negb (Ascii.eqb c slash)) after_scheme) as Hb.
  assert (Hhead : forall c tail,
            snd (span (fun c => negb (Ascii.eqb c slash)) after_scheme) = String c tail ->
            c = slash).
  { clear. induction after_scheme as [| x s IH]; simpl; intros c tail H; [discriminate |].
    destruct (Ascii.eqb x slash) eqn:E; simpl in H.
    - injection H as <- _. now apply Ascii.eqb_eq.
    - destruct (span _ s). simpl in *. eauto. }
  destruct (span _ after_scheme) as [b after]. simpl in Hb, Hhead.
  destruct after as [| c tail]; [discriminate |].
  intros H. injection H as <- <-.
  rewrite (Hhead c tail eq_refl) in Hb.
  exists (snd (span (fun c => negb (Ascii.eqb c newline)) tail)).
  rewrite (strip_prefix_append _ _ _ Es), <- Hb.
  rewrite (span_append (fun c => negb (Ascii.eqb c newline)) tail).
  reflexivity.
Qed.

Lemma delete_calls_app (xs ys : list Call) :
  delete_calls (xs ++ ys) = delete_calls xs ++ delete_calls ys.
Proof. apply flat_map_app. Qed.

Lemma purged_all_calls (targets : list (string * string)) (w : World) :
  delete_calls (calls (fold_left purged targets w)) = delete_calls (calls w) ++ targets.
Proof.
  revert w; induction targets as [| [b p] targets IH]; intros w; simpl.
  - symmetry. apply app_nil_r.
  - rewrite IH. simpl. rewrite delete_calls_app, <- app_assoc. reflexivity.
Qed.

Lemma purged_all_objects (targets : list (string * string)) (w : World)
    (o : string * string) :
  In o (s3_objects (fold_left purged targets w)) <->
  In o (s3_objects w) /\ forall b p, In (b, p) targets -> under b p o = false.
Proof.
  revert w; induction targets as [| [b p] targets IH]; intros w; simpl.
  - split; [intros H; split; [exact H | intros ? ? []] | intros [H _]; exact H].
  - rewrite IH. simpl. rewrite filter_In, negb_true_iff. split.
    + intros [[Hin Hu] Hrest]. split; [exact Hin |].
      intros b' p' [E | Hin']; [injection E as <- <-; exact Hu | auto].
    + intros [Hin Hall]. repeat split; auto.
Qed.

Lemma delete_location_run (self : AthenaAdapter) (location : string) (w : World) :
  delete_location self location w
  = match s3_location_match location with
    | None => (Ok tt, w)
    | Some target =>
        match s3_delete_outcome self (fst target) (snd target) with
        | Deleted => (Ok tt, purged w target)
        | Failed e removed => (Raise e, refused w target removed)
        end
    end.
Proof.
  unfold delete_location. destruct (s3_location_match location) as [[b pfx] |];
    [| reflexivity].
  unfold s3_delete. simpl. destruct (s3_delete_outcome self b pfx); reflexivity.
Qed.

Lemma clean_up_partitions_loop (self : AthenaAdapter) (partitions : list GluePartition)
    (w : World) :
  Forall (fun p => Location (part_Descriptor p) <> None) partitions ->
  Forall (carried_out self) (parsed_locations partitions) ->
  for_each partitions
    (fun partition (_ : unit) =>
       location <- getitem_Location (part_Descriptor partition) ;;
       delete_location self location) tt w
  = (Ok tt, fold_left purged (parsed_locations partitions) w).
Proof.
  intros H; revert w; induction H as [| p ps Hp _ IH]; intros w Hc; simpl.
  - reflexivity.
  - unfold parsed_locations in *. simpl in Hc. apply Forall_app in Hc as [Hc1 Hc2].
    simpl. rewrite fold_left_app.
    unfold bind at 1, bind at 1, getitem_Location at 1.
    destruct (Location (part_Descriptor p)) as [l |]; [| contradiction].
    cbv beta iota delta [ret]. rewrite delete_location_run.
    unfold parsed in *.
    destruct (s3_location_match l) as [target |]; simpl.
    + inversion Hc1 as [| ? ? Hd _]; subst. unfold carried_out in Hd. rewrite Hd.
      apply IH, Hc2.
    + apply IH, Hc2.
Qed.

(** The claim C8 as written fails on two counts. A partition that
    carries no location is not skipped: reading its location raises a
    [KeyError]. And a location that matches the pattern does not mean
    that the objects under it are deleted: the object store refuses the
    delete for the location s3:///k, whose bucket name is empty, the
    error reaches the caller, and the partition that follows, whose
    location matches too, keeps its objects, no delete being issued for
    it. *)
Lemma clean_up_partitions_not_always_clean :
  (get_partitions (glue_client example_lake) "s1" "t1" "dt < '4'"
   = Ok [example_partition "1" "s3://b/tables/s1/t1/dt=1/";
         {| Values := ["2"];
            part_Descriptor := {| Columns := []; Location := None;
                                  Compressed := false |} |};
         example_partition "3" "s3://b/tables/s1/t1/dt=2/"] /\
   fst (clean_up_partitions example_lake "s1" "t1" "dt < '4'" lake_world)
   = Raise (KeyError "Location")) /\
  (get_partitions (glue_client example_lake) "s1" "t1" "root"
   = Ok [example_partition "0" "s3:///k";
         example_partition "1" "s3://b/tables/s1/t1/dt=1/"] /\
   s3_location_match "s3:///k" = Some ("", "k") /\
   s3_location_match "s3://b/tables/s1/t1/dt=1/" = Some ("b", "tables/s1/t1/dt=1/") /\
   let outcome := clean_up_partitions example_lake "s1" "t1" "root" lake_world in
   fst outcome = Raise (OtherError "ParamValidationError") /\
   delete_calls (calls (snd outcome)) = [("", "k")] /\
   In ("b", "tables/s1/t1/dt=1/part-0") (s3_objects (snd outcome)) /\
   under "b" "tables/s1/t1/dt=1/" ("b", "tables/s1/t1/dt=1/part-0") = true).
Proof.
  cbv zeta. repeat split. simpl. auto.
Qed.

(** C8, amended: [clean_up_partitions] on an expression that matches no
    partition asks for the partitions and deletes nothing. On partitions
    that each carry a location, the object store carrying out the
    deletes it is asked for, it returns; the delete calls it issues are,
    in order, those for the bucket and prefix of the locations that
    match the pattern, so none for a location that does not; and the
    objects left in the store are those under none of these prefixes. *)
Theorem clean_up_partitions_deletes (self : AthenaAdapter)
    (database_name table_name where_condition : string)
    (partitions : list GluePartition) (w : World) :
  get_partitions (glue_client self) database_name table_name where_condition
  = Ok partitions ->
  let asked := log (GlueGetPartitions database_name table_name where_condition) w in
  (partitions = [] ->
   clean_up_partitions self database_name table_name where_condition w = (Ok tt, asked)
   /\ delete_calls (calls asked) = delete_calls (calls w)
   /\ s3_objects asked = s3_objects w) /\
  (Forall (fun p => Location (part_Descriptor p) <> None) partitions ->
   Forall (carried_out self) (parsed_locations partitions) ->
   exists w',
     clean_up_partitions self database_name table_name where_condition w = (Ok tt, w') /\
     delete_calls (calls w') = delete_calls (calls w) ++ parsed_locations partitions /\
     (forall p l, In p partitions -> Location (part_Descriptor p) = Some l ->
        s3_location_match l = None -> parsed (Location (part_Descriptor p)) = []) /\
     (forall p l b pfx, In p partitions -> Location (part_Descriptor p) = Some l ->
        s3_location_match l = Some (b, pfx) ->
        In (b, pfx) (parsed_locations partitions) /\
        forall o, In o (s3_objects w') -> under b pfx o = false) /\
     (forall o, In o (s3_objects w') <->
        In o (s3_objects w) /\
        forall b pfx, In (b, pfx) (parsed_locations partitions) -> under b pfx o = false)).
Proof.
  intros Hget asked.
  assert (Hasked : delete_calls (calls asked) = delete_calls (calls w)).
  { unfold asked, log. simpl. rewrite delete_calls_app. simpl. apply app_nil_r. }
  split.
  - intros ->. repeat split; [| exact Hasked].
    unfold clean_up_partitions, bind at 1, remote. rewrite Hget. reflexivity.
  - intros Hloc Hcarried.
    assert (Hrun : clean_up_partitions self database_name table_name where_condition w
                   = (Ok tt, fold_left purged (parsed_locations partitions) asked)).
    { unfold clean_up_partitions, bind at 1, remote. rewrite Hget.
      apply clean_up_partitions_loop; assumption. }
    exists (fold_left purged (parsed_locations partitions) asked).
    assert (Hin : forall p l b pfx, In p partitions ->
                    Location (part_Descriptor p) = Some l ->
                    s3_location_match l = Some (b, pfx) ->
                    In (b, pfx) (parsed_locations partitions)).
    { intros p l b pfx Hp Hl Hm. unfold parsed_locations. apply in_flat_map.
      exists p. split; [exact Hp |]. unfold parsed. rewrite Hl, Hm. now left. }
    split; [exact Hrun |]. split; [| split; [| split]].
    + rewrite purged_all_calls, Hasked. reflexivity.
    + intros p l _ Hl Hm. unfold parsed. rewrite Hl, Hm. reflexivity.
    + intros p l b pfx Hp Hl Hm. split; [eauto |].
      intros o Ho. apply purged_all_objects in Ho as [_ Hall]. eauto.
    + intros o. exact (purged_all_objects (parsed_locations partitions) asked o).
Qed.

Lemma clean_up_partitions_deletes_witness :
  clean_up_partitions (example_adapter "uuid") "s1" "t1" "dt = 'none'" example_world
  = (Ok tt, log (GlueGetPartitions "s1" "t1" "dt = 'none'") example_world)
  /\ exists w',
       clean_up_partitions (example_adapter "uuid") "s1" "t1" "dt < '3'" example_world
       = (Ok tt, w') /\
       delete_calls (calls w') = [("b", "tables/s1/t1/dt=1/")].
Proof.
  split.
  - apply (proj1 (clean_up_partitions_deletes (example_adapter "uuid")
                    "s1" "t1" "dt = 'none'" [] example_world eq_refl)
                 eq_refl).
  - destruct (proj2 (clean_up_partitions_deletes (example_adapter "uuid")
                       "s1" "t1" "dt < '3'" _ example_world eq_refl)
                    ltac:(repeat constructor; discriminate)
                    ltac:(repeat constructor))
      as (w' & Hrun & Hcalls & _).
    exists w'. split; [exact Hrun | exact Hcalls].
Defined.

(** C5: when [get_table] fails with the code EntityNotFoundException,
    [clean_up_table] returns; the only call it has made is that
    [get_table], so no object was deleted. *)
Theorem clean_up_table_not_found (self : AthenaAdapter)
    (database_name table_name : string) (ei : ErrorInfo) (w : World) :
  get_table (glue_client self) database_name table_name = Raise (ClientError ei) ->
  Code ei = "EntityNotFoundException" ->
  clean_up_table self database_name table_name w
  = (Ok tt, log (GlueGetTable database_name table_name) w)
  /\ delete_calls (calls (log (GlueGetTable database_name table_name) w))
     = delete_calls (calls w)
  /\ s3_objects (log (GlueGetTable database_name table_name) w) = s3_objects w.
Proof.
  intros Hget Hcode. repeat split.
  - unfold clean_up_table, bind, try_except_ClientError, remote.
    rewrite Hget, Hcode. reflexivity.
  - unfold log. simpl. rewrite delete_calls_app. simpl. apply app_nil_r.
Qed.

Lemma clean_up_table_not_found_witness :
  clean_up_table (example_adapter "uuid") "s1" "gone" example_world
  = (Ok tt, log (GlueGetTable "s1" "gone") example_world).
Proof.
  apply (clean_up_table_not_found (example_adapter "uuid") "s1" "gone" no_such_table
           example_world eq_refl eq_refl).
Defined.

(** C6: when [get_table] fails with a [ClientError] of any other code,
    the handler falls through without raising again, the local [table]
    was never bound, and reading it raises the unbound-local error: the
    caller gets that error, not the one of the catalog service, and
    nothing was deleted. *)
Theorem clean_up_table_other_error (self : AthenaAdapter)
    (database_name table_name : string) (ei : ErrorInfo) (w : World) :
  get_table (glue_client self) database_name table_name = Raise (ClientError ei) ->
  Code ei <> "EntityNotFoundException" ->
  clean_up_table self database_name table_name w
  = (Raise (UnboundLocalError "table"), log (GlueGetTable database_name table_name) w)
  /\ UnboundLocalError "table" <> ClientError ei
  /\ delete_calls (calls (log (GlueGetTable database_name table_name) w))
     = delete_calls (calls w)
  /\ s3_objects (log (GlueGetTable database_name table_name) w) = s3_objects w.
Proof.
  intros Hget Hcode. apply String.eqb_neq in Hcode. repeat split.
  - unfold clean_up_table, bind, try_except_ClientError, remote.
    rewrite Hget, Hcode. reflexivity.
  - discriminate.
  - unfold log. simpl. rewrite delete_calls_app. simpl. apply app_nil_r.
Qed.

Lemma clean_up_table_other_error_witness :
  clean_up_table (example_adapter "uuid") "s1" "secret" example_world
  = (Raise (UnboundLocalError "table"), log (GlueGetTable "s1" "secret") example_world).
Proof.
  apply (clean_up_table_other_error (example_adapter "uuid") "s1" "secret"
           access_denied example_world eq_refl).
  simpl. discriminate.
Defined.

(** * Further properties *)

(** ** What a retrieval that goes through collects *)

Lemma classifier_rel_type_of (table : GlueTable) (w : World) :
  known_kind table = true ->
  _get_rel_type_from_glue_response table w = (Ok (rel_type_of table), w).
Proof.
  unfold known_kind, _get_rel_type_from_glue_response, rel_type_of. intros H.
  destruct (String.eqb (TableType table) "VIRTUAL_VIEW"); [reflexivity |].
  destruct (String.eqb (TableType table) "EXTERNAL_TABLE"); [reflexivity | discriminate].
Qed.

Lemma fetched_next (params : QueryParams) (i n : nat) (w : World) :
  fetched params (S i) n (log (GlueGetTables params i) w) = fetched params i (S n) w.
Proof.
  unfold fetched, log. simpl. rewrite <- app_assoc. reflexivity.
Qed.

Lemma fetched_none (params : QueryParams) (i : nat) (w : World) :
  fetched params i 0 w = w.
Proof.
  unfold fetched. simpl. rewrite app_nil_r. destruct w; reflexivity.
Qed.

Lemma served_tables_served (served : list (list GlueTable)) :
  served_tables (map Ok served) = concat served.
Proof.
  unfold served_tables. induction served as [| ts tss IH]; simpl; [| rewrite IH];
    reflexivity.
Qed.

Section Collecting.
Context {L : Type} (body : GlueTable -> L -> M L)
        (f : GlueTable -> RelationType -> L -> L).
Hypothesis Hf : forall table acc,
  body table acc = (rel_type <- _get_rel_type_from_glue_response table ;;
                    ret (f table rel_type acc)).

Let step (acc : L) (table : GlueTable) : L := f table (rel_type_of table) acc.

Lemma for_each_collects (tables : list GlueTable) (acc : L) (w : World) :
  Forall (fun t => known_kind t = true) tables ->
  for_each tables body acc w = (Ok (fold_left step tables acc), w).
Proof.
  intros H; revert acc; induction H as [| t ts Ht _ IH]; intros acc; simpl.
  - reflexivity.
  - rewrite (bind_ok _ _ w w (step acc t)); [apply IH |].
    rewrite Hf. rewrite (bind_ok _ _ _ _ _ (classifier_rel_type_of t w Ht)).
    reflexivity.
Qed.

Lemma for_pages_collects (params : QueryParams) (served : list (list GlueTable))
    (i : nat) (acc : L) (w : World) :
  Forall (Forall (fun t => known_kind t = true)) served ->
  for_pages params i (map Ok served) body acc w
  = (Ok (fold_left step (concat served) acc), fetched params i (length served) w).
Proof.
  intros H; revert i acc w; induction H as [| ts tss Hts _ IH]; intros i acc w; simpl.
  - rewrite fetched_none. reflexivity.
  - unfold bind at 1, remote at 1.
    rewrite (bind_ok _ _ _ _ _ (for_each_collects ts acc _ Hts)).
    rewrite IH, fetched_next, fold_left_app. reflexivity.
Qed.

Lemma retrieve_collects (self : AthenaAdapter) (catalog_id name : string)
    (served : list (list GlueTable)) (acc : L) (w : World) :
  catalog_id <> "" -> name <> "" ->
  pages_of self catalog_id name = map Ok served ->
  Forall (Forall (fun t => known_kind t = true)) served ->
  _retrieve_glue_tables self catalog_id name body acc w
  = (Ok (fold_left step (concat served) acc),
     fetched (query_params catalog_id name) 0 (length served) w).
Proof.
  intros Hc Hn Hp Hk. rewrite (retrieve_unfold body self _ _ Hc Hn).
  unfold pages_of in Hp. rewrite Hp. apply for_pages_collects, Hk.
Qed.
End Collecting.

Lemma fold_left_append_rows {A B} (g : A -> list B) (xs : list A) (acc : list B) :
  fold_left (fun acc x => acc ++ g x) xs acc = acc ++ flat_map g xs.
Proof.
  revert acc; induction xs as [| x xs IH]; intros acc; simpl.
  - symmetry. apply app_nil_r.
  - rewrite IH, <- app_assoc. reflexivity.
Qed.

(** ** Relation listing *)

(** X1: when the service serves every page of the schema and every table
    is a view or an external table, the listing returns one relation per
    table, in the order of the pages and of the tables within them; each
    page was asked for once, in turn, and no SQL listing was run. *)
Theorem list_relations_from_glue (self : AthenaAdapter)
    (schema_relation : AthenaRelation) (served : list (list GlueTable)) (w : World) :
  database schema_relation <> "" -> schema schema_relation <> "" ->
  pages_of self (database schema_relation) (schema schema_relation) = map Ok served ->
  Forall (Forall (fun t => known_kind t = true)) served ->
  list_relations_without_caching self schema_relation w
  = (Ok (map (glue_relation schema_relation) (concat served)),
     fetched (query_params (database schema_relation) (schema schema_relation))
       0 (length served) w).
Proof.
  intros Hdb Hs Hp Hk. unfold list_relations_without_caching.
  apply try_except_returns.
  rewrite (retrieve_collects (relation_of_table schema_relation)
             (fun table rel_type relations =>
                relations ++ [ {| database := database schema_relation;
                                  identifier := Name table;
                                  schema := schema schema_relation;
                                  quote_policy := default_quote_policy;
                                  type := Some rel_type;
                                  column_information :=
                                    Columns (Descriptor table) ++ PartitionKeys table |} ])
             (fun _ _ => eq_refl) self _ _ served [] w Hdb Hs Hp Hk).
  f_equal. f_equal.
  apply (append_each (glue_relation schema_relation) (concat served) []).
Qed.

Lemma list_relations_from_glue_witness :
  exists w',
    list_relations_without_caching example_lake (example_relation "awsdatacatalog" "s1")
      lake_world = (Ok (map (glue_relation (example_relation "awsdatacatalog" "s1"))
                          [example_table "t1" "EXTERNAL_TABLE";
                           example_table "v1" "VIRTUAL_VIEW";
                           example_table "t3" "EXTERNAL_TABLE"]), w') /\
    calls w' = [GlueGetTables (query_params "awsdatacatalog" "s1") 0;
                GlueGetTables (query_params "awsdatacatalog" "s1") 1].
Proof.
  eexists. split.
  - apply (list_relations_from_glue example_lake (example_relation "awsdatacatalog" "s1")
             [[example_table "t1" "EXTERNAL_TABLE"; example_table "v1" "VIRTUAL_VIEW"];
              [example_table "t3" "EXTERNAL_TABLE"]] lake_world);
      [simpl; discriminate | simpl; discriminate | reflexivity | repeat constructor].
  - reflexivity.
Defined.

(** X2: when the service refuses a page with a [ClientError], after
    having served others or not, the listing returns what the inherited
    SQL listing returns for the same schema relation: the relations
    built from the pages served are dropped, and the SQL listing is run
    once, after the Glue calls. *)
Theorem list_relations_fallback (self : AthenaAdapter)
    (schema_relation : AthenaRelation) (ei : ErrorInfo) (w : World) :
  database schema_relation <> "" -> schema schema_relation <> "" ->
  denied_with (pages_of self (database schema_relation) (schema schema_relation))
    (ClientError ei) ->
  exists w',
    list_relations_without_caching self schema_relation w
    = (super_list_relations_without_caching self schema_relation,
       log (SqlListRelations schema_relation) w') /\
    issued sql_fallback w' = issued sql_fallback w.
Proof.
  intros Hdb Hs Hd.
  destruct (retrieve_denied _ (relation_of_table_classifying schema_relation)
              self _ _ Hdb Hs (ClientError ei) [] w Hd) as (w' & E).
  exists w'. split.
  - unfold list_relations_without_caching.
    rewrite (try_except_catches _ _ _ _ _ E). reflexivity.
  - apply (silent_retrieve sql_fallback self _ _ _ [] (fun _ _ => eq_refl)
             (classifying_silent _ (relation_of_table_classifying schema_relation)
                sql_fallback) _ _ _ E).
Qed.

Lemma list_relations_fallback_witness :
  exists w',
    list_relations_without_caching (example_adapter "uuid")
      (example_relation "awsdatacatalog" "s1") example_world
    = (Ok [], log (SqlListRelations (example_relation "awsdatacatalog" "s1")) w').
Proof.
  destruct (list_relations_fallback (example_adapter "uuid")
              (example_relation "awsdatacatalog" "s1") access_denied example_world)
    as (w' & E & _).
  - simpl; discriminate.
  - simpl; discriminate.
  - exists [[example_table "t1" "EXTERNAL_TABLE"]], []. split; repeat constructor.
  - exists w'. exact E.
Defined.

(** X3: only a [ClientError] triggers a fallback. When the fetch of a
    page fails with any other exception, the relation listing and the
    catalog raise that exception, and neither runs its SQL path. *)
Theorem page_failure_not_recovered (self : AthenaAdapter) (e : exn) :
  is_ClientError e = false ->
  (forall schema_relation w,
     database schema_relation <> "" -> schema schema_relation <> "" ->
     denied_with (pages_of self (database schema_relation) (schema schema_relation)) e ->
     exists w',
       list_relations_without_caching self schema_relation w = (Raise e, w') /\
       issued sql_fallback w' = issued sql_fallback w) /\
  (forall information_schema schemas manifest w schema_list before schema_name after,
     list_schemas self (info_database information_schema) = Ok schema_list ->
     target_schemas_of self manifest schema_list = before ++ schema_name :: after ->
     info_database information_schema <> "" ->
     Forall (retrievable self (info_database information_schema)) before ->
     schema_name <> "" ->
     denied_with (pages_of self (info_database information_schema) schema_name) e ->
     exists w',
       _get_one_catalog self information_schema schemas manifest w = (Raise e, w') /\
       issued sql_fallback w' = issued sql_fallback w).
Proof.
  intros He. split.
  - intros schema_relation w Hdb Hs Hd.
    destruct (retrieve_denied _ (relation_of_table_classifying schema_relation)
                self _ _ Hdb Hs e [] w Hd) as (w' & E).
    exists w'. split.
    + apply try_except_passes; assumption.
    + apply (silent_retrieve sql_fallback self _ _ _ [] (fun _ _ => eq_refl)
               (classifying_silent _ (relation_of_table_classifying schema_relation)
                  sql_fallback) _ _ _ E).
  - intros information_schema schemas manifest w schema_list before schema_name after
      Hls Hts Hdb Hb Hs Hd.
    destruct (glue_catalog_raises self (info_database information_schema)
                before after schema_name manifest e
                (retrievable_completes _ _ _ Hdb Hb)
                (fun acc w0 =>
                   retrieve_denied _ (catalog_rows_of_table_classifying _ schema_name)
                     self _ _ Hdb Hs e acc w0 Hd)
                (log (SqlListSchemas (info_database information_schema)) w))
      as (w' & E).
    rewrite <- Hts in E.
    destruct (get_one_catalog_raises self information_schema schemas manifest
                schema_list _ w w' Hls E) as [Hres Hsil].
    exists w'. split; [| exact Hsil].
    rewrite Hres. destruct e; try reflexivity; discriminate.
Qed.

Lemma page_failure_not_recovered_witness :
  exists w',
    list_relations_without_caching example_lake (example_relation "far" "unreachable")
      lake_world = (Raise (OtherError "EndpointConnectionError"), w') /\
    issued sql_fallback w' = issued sql_fallback lake_world.
Proof.
  apply (proj1 (page_failure_not_recovered example_lake
                  (OtherError "EndpointConnectionError") eq_refl)
           (example_relation "far" "unreachable") lake_world).
  - simpl; discriminate.
  - simpl; discriminate.
  - exists [[example_table "t1" "EXTERNAL_TABLE"]], []. split; repeat constructor.
Defined.

(** X4: [get_columns_in_relation] answers from the relation found by
    [get_relation] when that relation carries at least one column: one
    column per entry, in the order of the entries, built from its name
    and type, and the inherited lookup is not run. When no relation is
    found, or the one found carries no column, the answer is the one of
    the inherited lookup. *)
Theorem get_columns_in_relation_cached {Column : Type}
    (Column_create : string -> string -> Column)
    (get_relation : string -> string -> string -> M (option AthenaRelation))
    (super_get_columns_in_relation : AthenaRelation -> M (list Column))
    (relation : AthenaRelation) (found : option AthenaRelation) (w w' : World) :
  get_relation (database relation) (schema relation) (identifier relation) w
  = (Ok found, w') ->
  (forall cached, found = Some cached -> column_information cached <> [] ->
     get_columns_in_relation Column_create get_relation super_get_columns_in_relation
       relation w
     = (Ok (map (fun col => Column_create (col_Name col) (col_Type col))
                (column_information cached)), w')) /\
  (found = None \/ (exists cached, found = Some cached /\ column_information cached = []) ->
     get_columns_in_relation Column_create get_relation super_get_columns_in_relation
       relation w
     = super_get_columns_in_relation relation w').
Proof.
  intros Hget. split.
  - intros cached -> Hne. unfold get_columns_in_relation.
    rewrite (bind_ok _ _ _ _ _ Hget).
    destruct (column_information cached) as [| col cols] eqn:E; [contradiction |].
    rewrite (append_each (fun col => Column_create (col_Name col) (col_Type col))).
    reflexivity.
  - intros [-> | (cached & -> & Hnil)]; unfold get_columns_in_relation;
      rewrite (bind_ok _ _ _ _ _ Hget); [| rewrite Hnil]; reflexivity.
Qed.

(** The relation listed for t1 gives its storage columns a and b, then
    its partition key p. *)
Lemma get_columns_in_relation_cached_witness :
  get_columns_in_relation (fun name ty => (name, ty))
    (fun _ _ _ => ret (Some (glue_relation (example_relation "awsdatacatalog" "s1")
                               (example_table "t1" "EXTERNAL_TABLE"))))
    (fun _ => raise (OtherError "no SQL"))
    (example_relation "awsdatacatalog" "s1") example_world
  = (Ok [("a", "int"); ("b", "string"); ("p", "date")], example_world).
Proof.
  apply (proj1 (get_columns_in_relation_cached (fun name ty => (name, ty))
                  (fun _ _ _ => ret (Some (glue_relation
                                             (example_relation "awsdatacatalog" "s1")
                                             (example_table "t1" "EXTERNAL_TABLE"))))
                  (fun _ => raise (OtherError "no SQL"))
                  (example_relation "awsdatacatalog" "s1") _ example_world example_world
                  eq_refl) _ eq_refl).
  intros H. discriminate H.
Defined.

(** ** The rows of the catalog *)

Lemma catalog_rows_of_table_eq (target_database schema_name : string)
    (table : GlueTable) (rows : list Dict) (w : World) :
  known_kind table = true ->
  catalog_rows_of_table target_database schema_name table rows w
  = (Ok (rows ++ rows_of_table target_database schema_name table (rel_type_of table)), w).
Proof.
  intros Hk. unfold catalog_rows_of_table.
  rewrite (bind_ok _ _ _ _ _ (classifier_rel_type_of table w Hk)).
  cbv zeta. rewrite append_each. reflexivity.
Qed.

Lemma column_row_shape (target_database schema_name : string) (table : GlueTable)
    (rel_type : RelationType) (idx : nat) (col : GlueColumn) :
  let row := column_row (table_row_of target_database schema_name table rel_type) idx col in
  keys row = catalog_columns /\
  Forall (fun label => dict_get row ("stats:" ++ label ++ ":include")%string
                       = Some (VBool true)) stats_labels /\
  dict_get row "table_database" = Some (VStr target_database) /\
  dict_get row "table_schema" = Some (VStr schema_name) /\
  dict_get row "table_name" = Some (VStr (Name table)) /\
  dict_get row "table_type" = Some (VRelType rel_type).
Proof.
  cbv zeta. split; [reflexivity |]. split; [| repeat split].
  repeat constructor.
Qed.

(** X5: every row appended to the catalog for a table has the same forty
    keys in the same order, whatever the table and the column, so the
    names taken from the first row fit every row; each of the eight
    statistics is marked as included; and the table-wide keys hold the
    target database, the schema, the name of the table and its type. *)
Theorem catalog_row_shape (target_database schema_name : string)
    (table : GlueTable) (rows : list Dict) (w : World) :
  known_kind table = true ->
  exists new_rows,
    catalog_rows_of_table target_database schema_name table rows w
    = (Ok (rows ++ new_rows), w) /\
    Forall (fun row =>
              keys row = catalog_columns /\
              length (values row) = 40 /\
              Forall (fun label => dict_get row ("stats:" ++ label ++ ":include")%string
                                   = Some (VBool true)) stats_labels /\
              dict_get row "table_database" = Some (VStr target_database) /\
              dict_get row "table_schema" = Some (VStr schema_name) /\
              dict_get row "table_name" = Some (VStr (Name table)) /\
              dict_get row "table_type" = Some (VRelType (rel_type_of table)))
           new_rows.
Proof.
  intros Hk.
  exists (rows_of_table target_database schema_name table (rel_type_of table)).
  split; [apply catalog_rows_of_table_eq, Hk |].
  unfold rows_of_table. apply Forall_forall. intros row Hin.
  apply in_map_iff in Hin as ([i col] & <- & _).
  destruct (column_row_shape target_database schema_name table (rel_type_of table) i col)
    as (Hkeys & Hinc & Hdb & Hs & Hn & Ht).
  split; [exact Hkeys |]. split; [| repeat split; assumption].
  apply (f_equal (@length string)) in Hkeys.
  unfold keys in Hkeys. unfold values. rewrite length_map in *. exact Hkeys.
Qed.

Lemma catalog_row_shape_witness :
  exists new_rows,
    catalog_rows_of_table "awsdatacatalog" "s1" (example_table "t1" "EXTERNAL_TABLE")
      [] example_world = (Ok new_rows, example_world) /\
    map keys new_rows = [catalog_columns; catalog_columns; catalog_columns].
Proof.
  destruct (catalog_row_shape "awsdatacatalog" "s1" (example_table "t1" "EXTERNAL_TABLE")
              [] example_world eq_refl) as (new_rows & E & _).
  exists new_rows. split; [exact E |].
  injection E as <-. reflexivity.
Defined.

Lemma fold_left_catalog_rows (target_database schema_name : string)
    (tables : list GlueTable) (rows : list Dict) :
  fold_left
    (fun acc table =>
       fold_left
         (fun rows ic =>
            rows ++ [column_row
                       (table_row_of target_database schema_name table (rel_type_of table))
                       (fst ic) (snd ic)])
         (enumerate (Columns (Descriptor table) ++ PartitionKeys table)) acc)
    tables rows
  = rows ++ flat_map (fun table =>
                        rows_of_table target_database schema_name table
                          (rel_type_of table)) tables.
Proof.
  revert rows; induction tables as [| t ts IH]; intros rows; simpl.
  - symmetry. apply app_nil_r.
  - rewrite IH, append_each, <- app_assoc. reflexivity.
Qed.

Lemma schema_rows_collects (self : AthenaAdapter) (target_database schema_name : string)
    (rows : list Dict) (w : World) :
  target_database <> "" -> retrievable self target_database schema_name ->
  exists w',
    schema_rows self target_database schema_name rows w
    = (Ok (rows ++ rows_of_schema self target_database schema_name), w').
Proof.
  intros Hdb (Hs & served & Hp & Hk). eexists. unfold schema_rows.
  rewrite (retrieve_collects (catalog_rows_of_table target_database schema_name)
             (fun table rel_type rows =>
                fold_left
                  (fun rows ic =>
                     rows ++ [column_row
                                (table_row_of target_database schema_name table rel_type)
                                (fst ic) (snd ic)])
                  (enumerate (Columns (Descriptor table) ++ PartitionKeys table)) rows)
             (fun _ _ => eq_refl) self _ _ served rows w Hdb Hs Hp Hk).
  rewrite fold_left_catalog_rows. unfold rows_of_schema.
  rewrite Hp, served_tables_served. reflexivity.
Qed.

Lemma schemas_rows_collect (self : AthenaAdapter) (target_database : string)
    (target_schemas : list string) :
  target_database <> "" ->
  Forall (retrievable self target_database) target_schemas ->
  forall rows w, exists w',
    for_each target_schemas (schema_rows self target_database) rows w
    = (Ok (rows ++ rows_of_schemas self target_database target_schemas), w').
Proof.
  intros Hdb H; induction H as [| s ss Hs _ IH]; intros rows w; simpl.
  - exists w. unfold ret. now rewrite app_nil_r.
  - destruct (schema_rows_collects self target_database s rows w Hdb Hs) as (w1 & E).
    rewrite (bind_ok _ _ _ _ _ E).
    destruct (IH (rows ++ rows_of_schema self target_database s) w1) as (w2 & E2).
    exists w2. rewrite E2, <- app_assoc. reflexivity.
Qed.

Lemma rows_of_schemas_keys (self : AthenaAdapter) (target_database : string)
    (target_schemas : list string) (row : Dict) :
  In row (rows_of_schemas self target_database target_schemas) ->
  keys row = catalog_columns.
Proof.
  unfold rows_of_schemas, rows_of_schema, rows_of_table. intros Hin.
  apply in_flat_map in Hin as (s & _ & Hin).
  apply in_flat_map in Hin as (t & _ & Hin).
  apply in_map_iff in Hin as ([i col] & <- & _).
  apply column_row_shape.
Qed.

(** X6: when the schema listing returns and the service serves every
    page of every target schema with tables of a known kind, the fallback
    is not taken. If rows were gathered, the table is asked of agate for
    the rows of the tables of the target schemas, schema after schema
    and table after table, under the forty column names, with the three
    table keys as text-only columns, and what agate builds is returned
    through the post-filter. If no row was gathered, [table_from_rows]
    is called without its column names: [_get_one_catalog] raises a
    [TypeError], and no empty table is returned. *)
Theorem get_one_catalog_from_glue (self : AthenaAdapter)
    (information_schema : InformationSchema) (schemas : list string)
    (manifest : Manifest) (schema_list : list string) (w : World) :
  let db := info_database information_schema in
  list_schemas self db = Ok schema_list ->
  db <> "" ->
  Forall (retrievable self db) (target_schemas_of self manifest schema_list) ->
  let rows := rows_of_schemas self db (target_schemas_of self manifest schema_list) in
  (rows = [] ->
   exists w',
     _get_one_catalog self information_schema schemas manifest w
     = (Raise (TypeError
                 "table_from_rows() missing 1 required positional argument: 'column_names'"),
        w') /\
     issued sql_fallback w' = issued sql_fallback w) /\
  (forall table,
     rows <> [] ->
     agate_Table self (map values rows) catalog_columns
       (Some ["table_database"; "table_schema"; "table_name"]) = Ok table ->
     exists w',
       _get_one_catalog self information_schema schemas manifest w
       = (Ok (_catalog_filter_table self table manifest), w') /\
       issued sql_fallback w' = issued sql_fallback w).
Proof.
  intros db Hls Hdb Hr rows.
  destruct (schemas_rows_collect self db _ Hdb Hr [] (log (SqlListSchemas db) w))
    as (w' & E).
  simpl in E. fold rows in E.
  assert (Hfinish : forall r,
            glue_catalog self db (target_schemas_of self manifest schema_list) manifest
              (log (SqlListSchemas db) w) = (r, w') ->
            is_ClientError match r with Raise e => e | Ok _ => TypeError "" end = false ->
            _get_one_catalog self information_schema schemas manifest w = (r, w') /\
            issued sql_fallback w' = issued sql_fallback w).
  { intros r Hg Hr'. split.
    - unfold _get_one_catalog, bind at 1, remote at 1. fold db. rewrite Hls.
      destruct r as [t | e];
        [apply try_except_returns, Hg | apply try_except_passes; assumption].
    - rewrite (glue_catalog_silent sql_fallback _ _ _ _ (fun _ _ => eq_refl) _ _ _ Hg).
      unfold issued, log. simpl. rewrite filter_app. simpl. apply app_nil_r. }
  split.
  - intros Hrows. exists w'. apply Hfinish; [| reflexivity].
    unfold glue_catalog. fold (schema_rows self db).
    rewrite (bind_ok _ _ _ _ _ E), Hrows. reflexivity.
  - intros table Hrows Hagate. exists w'. apply Hfinish; [| reflexivity].
    unfold glue_catalog. fold (schema_rows self db).
    rewrite (bind_ok _ _ _ _ _ E).
    destruct rows as [| first others] eqn:Erows; [contradiction |].
    rewrite (rows_of_schemas_keys self db (target_schemas_of self manifest schema_list)
               first) by (fold rows; rewrite Erows; now left).
    unfold table_from_rows, bind. rewrite Hagate. reflexivity.
Qed.

Lemma get_one_catalog_from_glue_witness :
  (exists w',
     _get_one_catalog example_lake {| info_database := "awsdatacatalog" |} ["s1"]
       example_manifest lake_world
     = (Ok {| column_names := catalog_columns;
              table_rows :=
                map values
                  (rows_of_schemas example_lake "awsdatacatalog" ["s1"; "S2"]) |}, w')) /\
  (exists w',
     _get_one_catalog example_lake {| info_database := "void" |} ["empty"]
       {| get_used_schemas := [("void", "EMPTY")] |} lake_world
     = (Raise (TypeError
                 "table_from_rows() missing 1 required positional argument: 'column_names'"),
        w')).
Proof.
  assert (Hserved : forall db s, s <> "" -> s <> "unreachable" -> s <> "empty" ->
                      retrievable example_lake db s).
  { intros db s H0 H1 H2. split; [exact H0 |].
    exists [[example_table "t1" "EXTERNAL_TABLE"; example_table "v1" "VIRTUAL_VIEW"];
            [example_table "t3" "EXTERNAL_TABLE"]].
    split; [| repeat constructor].
    unfold pages_of, example_lake. simpl.
    apply String.eqb_neq in H1. apply String.eqb_neq in H2. rewrite H1, H2.
    reflexivity. }
  split.
  - destruct (get_one_catalog_from_glue example_lake
                {| info_database := "awsdatacatalog" |} ["s1"] example_manifest
                ["s1"; "unused"; "S2"] lake_world eq_refl) as [_ Hfull].
    + simpl; discriminate.
    + change (Forall (retrievable example_lake "awsdatacatalog") ["s1"; "S2"]).
      apply Forall_cons; [apply Hserved; discriminate |].
      apply Forall_cons; [apply Hserved; discriminate | apply Forall_nil].
    + destruct (Hfull _ ltac:(discriminate) eq_refl) as (w' & E & _).
      exists w'. exact E.
  - destruct (get_one_catalog_from_glue example_lake
                {| info_database := "void" |} ["empty"]
                {| get_used_schemas := [("void", "EMPTY")] |}
                ["empty"] lake_world eq_refl) as [Hnone _].
    + simpl; discriminate.
    + change (Forall (retrievable example_lake "void") ["empty"]).
      apply Forall_cons; [| apply Forall_nil].
      split; [discriminate |]. exists [[]]. split; [reflexivity | repeat constructor].
    + destruct (Hnone eq_refl) as (w' & E & _). exists w'. exact E.
Defined.

(** ** Schemas the catalog does not ask for *)

Section SilentAt.
Context (select : Call -> bool).

Lemma silent_try_except {A} (body : M A) (handler : ErrorInfo -> M A) :
  silent select body -> (forall e, silent select (handler e)) ->
  silent select (try_except_ClientError body handler).
Proof.
  intros Hb Hh w r w' H. unfold try_except_ClientError in H.
  destruct (body w) as [[a | e] w1] eqn:E.
  - injection H as _ <-. apply (Hb _ _ _ E).
  - destruct e; try (injection H as _ <-; apply (Hb _ _ _ E)).
    rewrite (Hh _ _ _ _ H). apply (Hb _ _ _ E).
Qed.

Lemma silent_for_each_in {A L} (body : A -> L -> M L) (xs : list A) :
  (forall x acc, In x xs -> silent select (body x acc)) ->
  forall acc, silent select (for_each xs body acc).
Proof.
  induction xs as [| x xs IH]; intros Hb acc; simpl.
  - apply silent_ret.
  - apply silent_bind; [apply Hb; now left |].
    intros a. apply IH. intros y acc' Hy. apply Hb. now right.
Qed.

Lemma silent_for_pages_at {L} (body : GlueTable -> L -> M L) (params : QueryParams)
    (pages : list (Result (list GlueTable))) :
  (forall i, select (GlueGetTables params i) = false) ->
  (forall x acc, silent select (body x acc)) ->
  forall i acc, silent select (for_pages params i pages body acc).
Proof.
  intros Hsel Hb. induction pages as [| page pages IH]; intros i acc; simpl.
  - apply silent_ret.
  - apply silent_bind; [apply silent_remote, Hsel |].
    intros ts. apply silent_bind; [apply silent_for_each, Hb | intros a; apply IH].
Qed.

Lemma silent_retrieve_at {L} (self : AthenaAdapter) (catalog_id name : string)
    (body : GlueTable -> L -> M L) (acc : L) :
  (forall i, select (GlueGetTables (query_params catalog_id name) i) = false) ->
  (forall x acc, silent select (body x acc)) ->
  silent select (_retrieve_glue_tables self catalog_id name body acc).
Proof.
  intros Hsel Hb. unfold _retrieve_glue_tables.
  destruct (String.eqb catalog_id ""); [apply silent_raise |].
  destruct (String.eqb name ""); [apply silent_raise |].
  apply silent_for_pages_at; assumption.
Qed.
End SilentAt.

Lemma existsb_eqb_in (x : string) (xs : list string) :
  existsb (String.eqb x) xs = true <-> In x xs.
Proof.
  rewrite existsb_exists. split.
  - intros (y & Hy & E). apply String.eqb_eq in E. now subst.
  - intros H. exists x. split; [exact H | apply String.eqb_refl].
Qed.

Lemma target_schemas_of_in (self : AthenaAdapter) (manifest : Manifest) (schema_list : list string) (x : string) :
  In x (target_schemas_of self manifest schema_list) <->
  In x schema_list /\
  exists ds, In ds (get_used_schemas manifest) /\ str_lower self x = str_lower self (snd ds).
Proof.
  unfold target_schemas_of. rewrite filter_In, existsb_eqb_in, in_map_iff.
  split; intros [H (ds & H1 & H2)]; (split; [exact H |]); exists ds; auto.
Qed.

(** X7: whatever the outcome of [_get_one_catalog] (a table from Glue, a
    table from the fallback, or an error), the tables it asked the
    service for are those of schemas that the schema listing returned
    and that some schema used by the manifest names, letter case apart:
    a schema that is listed but not used is never fetched. *)
Theorem unused_schemas_not_fetched (self : AthenaAdapter)
    (information_schema : InformationSchema) (schemas : list string)
    (manifest : Manifest) (w w' : World) (r : Result AgateTable) :
  _get_one_catalog self information_schema schemas manifest w = (r, w') ->
  forall params i,
    In (GlueGetTables params i) (calls w') ->
    In (GlueGetTables params i) (calls w) \/
    exists schema_list ds,
      list_schemas self (info_database information_schema) = Ok schema_list /\
      In (DatabaseName params) schema_list /\
      In ds (get_used_schemas manifest) /\
      str_lower self (DatabaseName params) = str_lower self (snd ds).
Proof.
  intros Hrun params i Hin.
  unfold _get_one_catalog, bind at 1, remote at 1 in Hrun.
  destruct (list_schemas self (info_database information_schema))
    as [schema_list | e] eqn:Hls.
  - set (targets := target_schemas_of self manifest schema_list) in *.
    assert (Hsil : issued (fetches_outside targets) w' = issued (fetches_outside targets) w).
    { assert (Hs : silent (fetches_outside targets)
                     (try_except_ClientError
                        (glue_catalog self (info_database information_schema)
                           targets manifest)
                        (fun _ => sql_catalog self information_schema schemas manifest))).
      { apply silent_try_except.
        - unfold glue_catalog. apply silent_bind.
          + apply silent_for_each_in. intros s rows Hs.
            apply silent_retrieve_at.
            * intros j. simpl. apply negb_false_iff, existsb_eqb_in, Hs.
            * intros t acc.
              apply classifying_silent, catalog_rows_of_table_classifying.
          + intros rows. apply catalog_table_silent.
        - intros _. unfold sql_catalog. apply silent_bind.
          + apply silent_remote. reflexivity.
          + intros t. apply silent_ret. }
      rewrite (Hs _ _ _ Hrun). unfold issued, log. simpl.
      rewrite filter_app. simpl. apply app_nil_r. }
    destruct (fetches_outside targets (GlueGetTables params i)) eqn:Hout.
    + left.
      assert (Hin' : In (GlueGetTables params i) (issued (fetches_outside targets) w')).
      { apply filter_In. split; assumption. }
      rewrite Hsil in Hin'. apply filter_In in Hin'. apply Hin'.
    + right. simpl in Hout. apply negb_false_iff, existsb_eqb_in in Hout.
      apply target_schemas_of_in in Hout as (Hl & ds & Hds & Hlow).
      exists schema_list, ds. auto.
  - left. injection Hrun as _ <-. unfold log in Hin. simpl in Hin.
    apply in_app_or in Hin as [H | [H | []]]; [exact H | discriminate H].
Qed.

(** The schema named unused is listed for the catalog, and no page of
    it is asked for. *)
Lemma unused_schemas_not_fetched_witness :
  ~ In (GlueGetTables (query_params "awsdatacatalog" "unused") 0)
       (calls (snd (_get_one_catalog example_lake {| info_database := "awsdatacatalog" |}
                      ["s1"] example_manifest lake_world))).
Proof.
  intros Hin.
  destruct (unused_schemas_not_fetched example_lake
              {| info_database := "awsdatacatalog" |} ["s1"] example_manifest
              lake_world _ _ (surjective_pairing _) _ _ Hin)
    as [[] | (schema_list & ds & _ & _ & Hds & Hlow)].
  destruct Hds as [<- | [<- | []]]; discriminate Hlow.
Defined.

(** ** Strings with a separator *)

Lemma append_assoc (a b c : string) : ((a ++ b) ++ c = a ++ b ++ c)%string.
Proof. induction a as [| x a IH]; simpl; [| rewrite IH]; reflexivity. Qed.

Lemma append_nil_r (a : string) : (a ++ "")%string = a.
Proof. induction a as [| x a IH]; simpl; [| rewrite IH]; reflexivity. Qed.

Lemma free_of_app (c : ascii) (a b : string) :
  free_of c (a ++ b) = free_of c a && free_of c b.
Proof.
  induction a as [| x a IH]; simpl; [reflexivity |].
  rewrite IH. apply andb_assoc.
Qed.

(** Two strings free of [c] that are followed by [c] in the same string
    are the same, and so is what follows. *)
Lemma free_of_split (c : ascii) (a b x y : string) :
  free_of c a = true -> free_of c b = true ->
  (a ++ String c x = b ++ String c y)%string -> a = b /\ x = y.
Proof.
  revert b; induction a as [| p a IH]; intros [| q b] Ha Hb H; simpl in *.
  - injection H as ->. auto.
  - injection H as <- _. rewrite Ascii.eqb_refl in Hb. discriminate.
  - injection H as -> _. rewrite Ascii.eqb_refl in Ha. discriminate.
  - injection H as <- H.
    apply andb_true_iff in Ha as [_ Ha]. apply andb_true_iff in Hb as [_ Hb].
    destruct (IH b Ha Hb H) as [-> ->]. auto.
Qed.

Lemma prefix_iff (p s : string) :
  String.prefix p s = true <-> exists rest, s = (p ++ rest)%string.
Proof.
  split.
  - revert s; induction p as [| a p IH]; intros s H.
    + exists s. reflexivity.
    + destruct s as [| b s]; simpl in H; [discriminate |].
      destruct (ascii_dec a b) as [<- | _]; [| discriminate].
      destruct (IH s H) as [rest ->]. exists rest. reflexivity.
  - intros [rest ->]. apply prefix_append.
Qed.

Lemma prefix_append_both (p a b : string) :
  String.prefix (p ++ a) (p ++ b) = String.prefix a b.
Proof.
  induction p as [| c p IH]; simpl; [reflexivity |].
  destruct (ascii_dec c c) as [_ | ne]; [exact IH | contradiction].
Qed.

Lemma span_free_of (c : ascii) (a rest : string) :
  free_of c a = true ->
  rest = "" \/ (exists r, rest = String c r) ->
  span (fun x => negb (Ascii.eqb x c)) (a ++ rest) = (a, rest).
Proof.
  intros Ha Hrest. induction a as [| x a IH]; simpl in *.
  - destruct Hrest as [-> | [r ->]]; simpl; [reflexivity |].
    rewrite Ascii.eqb_refl. reflexivity.
  - apply andb_true_iff in Ha as [Hx Ha]. rewrite Hx, (IH Ha). reflexivity.
Qed.

Lemma span_free_of_inv (c : ascii) (s a b : string) :
  span (fun x => negb (Ascii.eqb x c)) s = (a, b) ->
  s = (a ++ b)%string /\ free_of c a = true /\ (b = "" \/ exists r, b = String c r).
Proof.
  revert a b; induction s as [| x s IH]; simpl; intros a b H.
  - injection H as <- <-. auto.
  - destruct (Ascii.eqb x c) eqn:E; simpl in H.
    + injection H as <- <-. apply Ascii.eqb_eq in E. subst x.
      repeat split. right. eauto.
    + destruct (span _ s) as [a' b'] eqn:Es. injection H as <- <-.
      destruct (IH a' b' eq_refl) as (-> & Ha & Hb).
      simpl. rewrite E. auto.
Qed.

(** ** Storage locations *)

(** X8: under the naming mode "schema_table", two tables whose schema
    names hold no slash get the same location only when they have the
    same schema and the same table name; a slash in a schema name breaks
    this, the table b/c of schema a and the table c of schema a/b
    sharing their location. *)
Theorem s3_schema_table_location_injective (self : AthenaAdapter) :
  s3_data_naming (creds self) = "schema_table" ->
  (forall schema1 table1 schema2 table2 w1 w2 path,
     free_of slash schema1 = true -> free_of slash schema2 = true ->
     fst (s3_table_location self schema1 table1 w1) = Ok path ->
     fst (s3_table_location self schema2 table2 w2) = Ok path ->
     schema1 = schema2 /\ table1 = table2) /\
  (forall a b c w,
     s3_table_location self (a ++ "/" ++ b) c w
     = s3_table_location self a (b ++ "/" ++ c) w).
Proof.
  intros Hn.
  assert (Hloc : forall s t w,
            s3_table_location self s t w
            = (Ok (table_root (creds self) ++ s ++ "/" ++ t ++ "/")%string, w)).
  { intros s t w. unfold s3_table_location. rewrite Hn. simpl.
    unfold s3_schema_table_location, bind. rewrite s3_table_prefix_eq. reflexivity. }
  split.
  - intros schema1 table1 schema2 table2 w1 w2 path H1 H2 E1 E2.
    rewrite Hloc in E1, E2. simpl in E1, E2.
    injection E1 as <-. injection E2 as E2.
    apply append_inj_l in E2.
    destruct (free_of_split slash schema2 schema1 _ _ H2 H1 E2) as [-> E3].
    split; [reflexivity |].
    symmetry. apply (append_char_inj_r slash). exact E3.
  - intros a b c w. rewrite !Hloc. do 2 f_equal.
    rewrite !append_assoc. reflexivity.
Qed.

Lemma s3_schema_table_location_injective_witness :
  fst (s3_table_location (example_adapter "schema_table") "s1" "t1" example_world)
  <> fst (s3_table_location (example_adapter "schema_table") "s1" "t2" example_world).
Proof.
  intros E.
  destruct (proj1 (s3_schema_table_location_injective
                     (example_adapter "schema_table") eq_refl)
              "s1" "t1" "s1" "t2" example_world example_world
              "s3://b/tables/s1/t1/" eq_refl eq_refl eq_refl)
    as [_ H].
  - rewrite <- E. reflexivity.
  - discriminate H.
Defined.

Lemma s3_location_match_complete (bucket_name key rest : string) :
  free_of slash bucket_name = true -> free_of newline key = true ->
  rest = "" \/ (exists r, rest = String newline r) ->
  s3_location_match ("s3://" ++ bucket_name ++ "/" ++ key ++ rest)
  = Some (bucket_name, key).
Proof.
  intros Hb Hk Hrest. unfold s3_location_match.
  change (strip_prefix "s3://" ("s3://" ++ bucket_name ++ "/" ++ key ++ rest))
    with (Some (bucket_name ++ String slash (key ++ rest))%string).
  cbv beta iota.
  rewrite (span_free_of slash bucket_name _ Hb) by (right; eauto).
  rewrite (span_free_of newline key rest Hk Hrest). reflexivity.
Qed.

(** X9: the pattern of the clean-up methods matches a location exactly
    when it reads s3://, a bucket name without a slash, a slash, and a
    key; the groups are that bucket name and the key up to its first
    newline, or whole when it has none. So s3://bucket/key, formatted
    from a bucket without a slash and a key without a newline, is read
    back as that bucket and that key. *)
Theorem s3_location_match_iff (location bucket_name key : string) :
  s3_location_match location = Some (bucket_name, key) <->
  exists rest,
    location = ("s3://" ++ bucket_name ++ "/" ++ key ++ rest)%string /\
    free_of slash bucket_name = true /\
    free_of newline key = true /\
    (rest = "" \/ exists r, rest = String newline r).
Proof.
  split.
  - unfold s3_location_match.
    destruct (strip_prefix "s3://" location) as [after_scheme |] eqn:Es; [| discriminate].
    apply strip_prefix_append in Es.
    destruct (span (fun c => negb (Ascii.eqb c slash)) after_scheme) as [b after] eqn:Eb.
    apply span_free_of_inv in Eb as (Hs & Hb & Hafter).
    destruct after as [| c tail]; [discriminate |].
    destruct Hafter as [Hnil | [r Hr]]; [discriminate |]. injection Hr as -> ->.
    destruct (span (fun c => negb (Ascii.eqb c newline)) r) as [k rest] eqn:Ek.
    apply span_free_of_inv in Ek as (Hr & Hk & Hrest).
    simpl. intros H. injection H as <- <-.
    exists rest. subst. repeat split; assumption.
  - intros (rest & -> & Hb & Hk & Hrest).
    apply s3_location_match_complete; assumption.
Qed.

Example s3_location_match_examples :
  s3_location_match "s3://b/tables/s1/t1/" = Some ("b", "tables/s1/t1/") /\
  s3_location_match "s3://b" = None /\
  s3_location_match "S3://b/k" = None /\
  s3_location_match "hdfs://b/k" = None /\
  s3_location_match "s3:///k" = Some ("", "k").
Proof. repeat split. Qed.

Lemma s3_location_match_iff_witness :
  s3_location_match "s3://lake/data/s1/mine/" = Some ("lake", "data/s1/mine/").
Proof.
  apply (proj2 (s3_location_match_iff "s3://lake/data/s1/mine/" "lake" "data/s1/mine/")).
  exists "". repeat split. now left.
Defined.

(** ** Cleaning up *)

Lemma clean_up_table_run (self : AthenaAdapter) (database_name table_name : string)
    (table : GlueTable) (w : World) :
  get_table (glue_client self) database_name table_name = Ok table ->
  clean_up_table self database_name table_name w
  = match Location (Descriptor table) with
    | None => (Raise (KeyError "Location"), log (GlueGetTable database_name table_name) w)
    | Some l => delete_location self l (log (GlueGetTable database_name table_name) w)
    end.
Proof.
  intros Hget. unfold clean_up_table, bind, try_except_ClientError, remote.
  rewrite Hget. unfold getitem_Location. cbv beta iota delta [ret raise].
  destruct (Location (Descriptor table)) as [l |]; reflexivity.
Qed.

Lemma refused_kept (w : World) (target : string * string)
    (removed : string * string -> bool) (o : string * string) :
  In o (s3_objects w) -> under (fst target) (snd target) o = false ->
  In o (s3_objects (refused w target removed)).
Proof.
  intros Hin Hu. simpl. apply filter_In. split; [exact Hin |]. rewrite Hu. reflexivity.
Qed.

(** X10: when the table exists, [clean_up_table] reads its location. If
    the location matches the pattern, one delete is issued, for the
    bucket and the prefix read from it. When the object store carries it
    out, the call returns, the objects of that bucket whose key starts
    with the prefix are gone and every other object is kept; when the
    object store fails it, the error reaches the caller, and the objects
    that are not under the prefix are kept. If the location does not
    match, nothing is deleted and the call returns. If the table carries
    no location, the call raises a [KeyError] and nothing is deleted. *)
Theorem clean_up_table_deletes (self : AthenaAdapter)
    (database_name table_name : string) (table : GlueTable) (w : World) :
  get_table (glue_client self) database_name table_name = Ok table ->
  let asked := log (GlueGetTable database_name table_name) w in
  (forall l b pfx,
     Location (Descriptor table) = Some l -> s3_location_match l = Some (b, pfx) ->
     (s3_delete_outcome self b pfx = Deleted ->
      exists w',
        clean_up_table self database_name table_name w = (Ok tt, w') /\
        delete_calls (calls w') = delete_calls (calls w) ++ [(b, pfx)] /\
        forall o, In o (s3_objects w') <-> In o (s3_objects w) /\ under b pfx o = false) /\
     (forall e removed,
        s3_delete_outcome self b pfx = Failed e removed ->
        exists w',
          clean_up_table self database_name table_name w = (Raise e, w') /\
          delete_calls (calls w') = delete_calls (calls w) ++ [(b, pfx)] /\
          forall o, In o (s3_objects w) -> under b pfx o = false ->
                    In o (s3_objects w'))) /\
  (forall l,
     Location (Descriptor table) = Some l -> s3_location_match l = None ->
     clean_up_table self database_name table_name w = (Ok tt, asked)) /\
  (Location (Descriptor table) = None ->
   clean_up_table self database_name table_name w = (Raise (KeyError "Location"), asked)).
Proof.
  intros Hget asked. pose proof (clean_up_table_run self _ _ table w Hget) as Hrun.
  split; [| split].
  - intros l b pfx Hl Hm. rewrite Hl, delete_location_run, Hm in Hrun. simpl in Hrun.
    split.
    + intros Hd. rewrite Hd in Hrun. eexists. split; [exact Hrun |]. split.
      * simpl. rewrite !delete_calls_app. simpl. rewrite app_nil_r. reflexivity.
      * intros o. simpl. rewrite filter_In, negb_true_iff. reflexivity.
    + intros e removed Hd. rewrite Hd in Hrun. eexists. split; [exact Hrun |]. split.
      * simpl. rewrite !delete_calls_app. simpl. rewrite app_nil_r. reflexivity.
      * intros o Hin Hu. apply (refused_kept (log _ w) (b, pfx)); assumption.
  - intros l Hl Hm. rewrite Hl, delete_location_run, Hm in Hrun. exact Hrun.
  - intros Hl. rewrite Hl in Hrun. exact Hrun.
Qed.

Lemma clean_up_table_deletes_witness :
  exists w',
    clean_up_table example_lake "s1" "mine" lake_world = (Ok tt, w') /\
    delete_calls (calls w') = [("lake", "data/s1/mine/")] /\
    s3_objects w' = [("lake", "data/s1/yours/part-0");
                     ("b", "tables/s1/t1/dt=1/part-0"); ("b", "tables/s1/t1/dt=2/part-0")].
Proof.
  destruct (proj1 (proj1 (clean_up_table_deletes example_lake "s1" "mine" _ lake_world
                            eq_refl)
                     "s3://lake/data/s1/mine/" "lake" "data/s1/mine/" eq_refl eq_refl)
              eq_refl)
    as (w' & Hrun & Hcalls & _).
  exists w'. split; [exact Hrun |]. split; [exact Hcalls |].
  injection Hrun as <-. reflexivity.
Defined.





Lemma filter_filter {A} (f g : A -> bool) (l : list A) :
  filter f (filter g l) = filter (fun x => g x && f x) l.
Proof.
  induction l as [| x l IH]; simpl; [reflexivity |].
  destruct (g x); simpl; [destruct (f x) |]; rewrite IH; reflexivity.
Qed.

Lemma clean_up_partitions_run (self : AthenaAdapter)
    (database_name table_name where_condition : string)
    (partitions : list GluePartition) (w : World) :
  get_partitions (glue_client self) database_name table_name where_condition
  = Ok partitions ->
  Forall (fun p => Location (part_Descriptor p) <> None) partitions ->
  Forall (carried_out self) (parsed_locations partitions) ->
  clean_up_partitions self database_name table_name where_condition w
  = (Ok tt,
     fold_left purged (parsed_locations partitions)
       (log (GlueGetPartitions database_name table_name where_condition) w)).
Proof.
  intros Hget Hloc Hc. unfold clean_up_partitions, bind at 1, remote. rewrite Hget.
  apply clean_up_partitions_loop; assumption.
Qed.

Lemma filter_all {A} (l : list A) : filter (fun _ => true) l = l.
Proof. induction l as [| x l IH]; simpl; [| rewrite IH]; reflexivity. Qed.

Lemma purged_all_spared (targets : list (string * string)) (w : World) :
  s3_objects (fold_left purged targets w) = filter (spared targets) (s3_objects w).
Proof.
  revert w; induction targets as [| t targets IH]; intros w; simpl.
  - symmetry. apply filter_all.
  - rewrite IH. simpl. apply filter_filter.
Qed.

(** X12: when the object store carries out the deletes, cleaning the
    same partitions a second time issues the same delete calls again and
    removes nothing more: the store after the second call is the store
    after the first. *)
Theorem clean_up_partitions_idempotent (self : AthenaAdapter)
    (database_name table_name where_condition : string)
    (partitions : list GluePartition) (w : World) :
  get_partitions (glue_client self) database_name table_name where_condition
  = Ok partitions ->
  Forall (fun p => Location (part_Descriptor p) <> None) partitions ->
  Forall (carried_out self) (parsed_locations partitions) ->
  exists w1 w2,
    clean_up_partitions self database_name table_name where_condition w = (Ok tt, w1) /\
    clean_up_partitions self database_name table_name where_condition w1 = (Ok tt, w2) /\
    delete_calls (calls w2) = delete_calls (calls w1) ++ parsed_locations partitions /\
    s3_objects w2 = s3_objects w1.
Proof.
  intros Hget Hloc Hc. eexists _, _.
  split; [apply (clean_up_partitions_run _ _ _ _ _ _ Hget Hloc Hc) |].
  split; [apply (clean_up_partitions_run _ _ _ _ _ _ Hget Hloc Hc) |].
  split.
  - rewrite purged_all_calls. unfold log at 1. simpl.
    rewrite delete_calls_app. simpl. rewrite app_nil_r. reflexivity.
  - rewrite purged_all_spared. cbn [s3_objects log].
    rewrite purged_all_spared. cbn [s3_objects log]. rewrite filter_filter.
    apply filter_ext. intros o. apply andb_diag.
Qed.

Lemma clean_up_partitions_idempotent_witness :
  exists w1 w2,
    clean_up_partitions (example_adapter "uuid") "s1" "t1" "dt < '3'" example_world
    = (Ok tt, w1) /\
    clean_up_partitions (example_adapter "uuid") "s1" "t1" "dt < '3'" w1 = (Ok tt, w2) /\
    s3_objects w2 = s3_objects w1.
Proof.
  destruct (clean_up_partitions_idempotent (example_adapter "uuid") "s1" "t1" "dt < '3'"
              _ example_world eq_refl)
    as (w1 & w2 & H1 & H2 & _ & Hs).
  - repeat constructor; discriminate.
  - repeat constructor.
  - exists w1, w2. auto.
Defined.

(** X13: a table stored at its own location is cleaned without harm to
    the others. Under the naming mode "schema_table", with a table root
    of the form s3://bucket/key and names without slash or newline, when
    the location of the table is the one [s3_table_location] gives for
    its schema and name, [clean_up_table] issues one delete, for that
    bucket and the key of that location, and every object under the
    location of a table of another schema or name is kept, whether the
    object store carries the delete out or fails it; when it carries it
    out, the call returns and every object under the table's own
    location is gone. *)
Theorem clean_up_table_spares_other_tables (self : AthenaAdapter)
    (database_name table_name : string) (table : GlueTable)
    (bucket root_key schema_name name path : string) (w w0 : World) :
  s3_data_naming (creds self) = "schema_table" ->
  table_root (creds self) = ("s3://" ++ bucket ++ "/" ++ root_key)%string ->
  free_of slash bucket = true ->
  free_of newline root_key = true ->
  free_of newline schema_name = true -> free_of newline name = true ->
  free_of slash schema_name = true -> free_of slash name = true ->
  get_table (glue_client self) database_name table_name = Ok table ->
  fst (s3_table_location self schema_name name w0) = Ok path ->
  Location (Descriptor table) = Some path ->
  let key := (root_key ++ schema_name ++ "/" ++ name ++ "/")%string in
  exists r w',
    clean_up_table self database_name table_name w = (r, w') /\
    delete_calls (calls w') = delete_calls (calls w) ++ [(bucket, key)] /\
    (s3_delete_outcome self bucket key = Deleted ->
     r = Ok tt /\
     forall o, fst o = bucket -> String.prefix key (snd o) = true ->
               ~ In o (s3_objects w')) /\
    (forall o schema2 name2 key2 w2,
       In o (s3_objects w) ->
       free_of slash schema2 = true -> free_of slash name2 = true ->
       (schema2, name2) <> (schema_name, name) ->
       fst (s3_table_location self schema2 name2 w2)
       = Ok ("s3://" ++ bucket ++ "/" ++ key2)%string ->
       String.prefix key2 (snd o) = true ->
       In o (s3_objects w')).
Proof.
  intros Hn Hroot Hb Hrk Hsn Hnn Hss Hns Hget Hpath Hl key.
  assert (Hloc : forall s t w1,
            fst (s3_table_location self s t w1)
            = Ok ("s3://" ++ bucket ++ "/" ++ root_key ++ s ++ "/" ++ t ++ "/")%string).
  { intros s t w1. unfold s3_table_location. rewrite Hn. simpl.
    unfold s3_schema_table_location, bind. rewrite s3_table_prefix_eq, Hroot. simpl.
    rewrite !append_assoc. reflexivity. }
  rewrite Hloc in Hpath.
  assert (Hp : path = ("s3://" ++ bucket ++ "/" ++ root_key
                       ++ schema_name ++ "/" ++ name ++ "/")%string)
    by (injection Hpath; auto).
  subst path. clear Hpath.
  assert (Hm : s3_location_match
                 ("s3://" ++ bucket ++ "/" ++ root_key ++ schema_name ++ "/" ++ name ++ "/")
               = Some (bucket, key)).
  { rewrite <- (append_nil_r (root_key ++ schema_name ++ "/" ++ name ++ "/")).
    apply s3_location_match_complete; [exact Hb | | now left].
    unfold key. rewrite !free_of_app, Hrk, Hsn, Hnn. reflexivity. }
  assert (Hother : forall o schema2 name2 key2 w2,
            free_of slash schema2 = true -> free_of slash name2 = true ->
            (schema2, name2) <> (schema_name, name) ->
            fst (s3_table_location self schema2 name2 w2)
            = Ok ("s3://" ++ bucket ++ "/" ++ key2)%string ->
            String.prefix key2 (snd o) = true ->
            under bucket key o = false).
  { intros o schema2 name2 key2 w2 Hs2 Hn2 Hne Hp2 Hpre.
    destruct (under bucket key o) eqn:Hu; [| reflexivity]. exfalso.
    apply andb_true_iff in Hu as [_ Hu].
    rewrite Hloc in Hp2.
    assert (Hk2 : ("s3://" ++ bucket ++ "/" ++ root_key ++ schema2 ++ "/" ++ name2 ++ "/"
                   = "s3://" ++ bucket ++ "/" ++ key2)%string) by congruence.
    apply (append_inj_l "s3://") in Hk2. apply append_inj_l in Hk2.
    apply (append_inj_l "/") in Hk2. subst key2. clear Hp2.
    apply prefix_iff in Hpre as [r2 E2]. apply prefix_iff in Hu as [r1 E1].
    rewrite E2 in E1. unfold key in E1. rewrite !append_assoc in E1.
    apply append_inj_l in E1.
    destruct (free_of_split slash _ _ _ _ Hs2 Hss E1) as [-> E3].
    destruct (free_of_split slash _ _ _ _ Hn2 Hns E3) as [-> _].
    apply Hne. reflexivity. }
  pose proof (clean_up_table_run self _ _ table w Hget) as Hrun.
  rewrite Hl, delete_location_run, Hm in Hrun. simpl in Hrun.
  destruct (s3_delete_outcome self bucket key) as [| e removed] eqn:Hd.
  - eexists _, _. split; [exact Hrun |]. split; [| split].
    + simpl. rewrite !delete_calls_app. simpl. rewrite app_nil_r. reflexivity.
    + intros _. split; [reflexivity |].
      intros o Ho Hp Hin. simpl in Hin. apply filter_In in Hin as [_ Hu].
      unfold under in Hu. rewrite Ho, String.eqb_refl, Hp in Hu. discriminate.
    + intros o schema2 name2 key2 w2 Hin Hs2 Hn2 Hne Hp2 Hpre.
      simpl. apply filter_In. split; [exact Hin |]. apply negb_true_iff.
      apply (Hother o schema2 name2 key2 w2); assumption.
  - eexists _, _. split; [exact Hrun |]. split; [| split].
    + simpl. rewrite !delete_calls_app. simpl. rewrite app_nil_r. reflexivity.
    + discriminate.
    + intros o schema2 name2 key2 w2 Hin Hs2 Hn2 Hne Hp2 Hpre.
      apply (refused_kept (log _ w) (bucket, key)); [exact Hin |].
      apply (Hother o schema2 name2 key2 w2); assumption.
Qed.

Lemma clean_up_table_spares_other_tables_witness :
  exists w',
    clean_up_table example_lake "s1" "mine" lake_world = (Ok tt, w') /\
    ~ In ("lake", "data/s1/mine/part-0") (s3_objects w') /\
    In ("lake", "data/s1/yours/part-0") (s3_objects w').
Proof.
  destruct (clean_up_table_spares_other_tables example_lake "s1" "mine"
              (bare_table "mine" (Some "s3://lake/data/s1/mine/"))
              "lake" "data/" "s1" "mine" "s3://lake/data/s1/mine/"
              lake_world lake_world
              eq_refl eq_refl eq_refl eq_refl eq_refl eq_refl eq_refl eq_refl
              eq_refl eq_refl eq_refl)
    as (r & w' & Hrun & _ & Hdone & Hkept).
  destruct (Hdone eq_refl) as [-> Hgone].
  exists w'. split; [exact Hrun |]. split.
  - apply Hgone; reflexivity.
  - apply (Hkept ("lake", "data/s1/yours/part-0") "s1" "yours" "data/s1/yours/"
             lake_world);
      [simpl; auto | reflexivity | reflexivity | discriminate | reflexivity | reflexivity].
Defined.
